(** * Paragraph segmentation of the knowledge-base service

    A shallow embedding of [KnowledgeBaseService.detectParagraphs]
    (knowledge-base.service.ts) and the properties of its three stages:
    normalisation, line grouping and post-filtering.

    A JavaScript string is a sequence of UTF-16 code units; the regular
    expressions of the source carry no [u] flag, so they too work on code
    units.  A string is therefore a [list N], one number per code unit. *)

From Stdlib Require Import Ascii String.
From Stdlib Require Import List NArith Arith Bool Lia.
Import ListNotations.

Set Implicit Arguments.

(** ** Strings and character classes *)

Definition jsstring := list N.

(** An ASCII literal as a JavaScript string. *)
Definition js (s : String.string) : jsstring :=
  map N_of_ascii (list_ascii_of_string s).

Module Char.
Local Open Scope N_scope.

Definition TAB : N := 9.
Definition LF : N := 10.
Definition CR : N := 13.
Definition SP : N := 32.

Definition inRange (lo hi c : N) : bool := (lo <=? c) && (c <=? hi).

(** [\d] *)
Definition isDigit (c : N) : bool := inRange 48 57 c.

(** The letters of [\w] together with the underscore: [A-Za-z_]. *)
Definition isLetter (c : N) : bool :=
  inRange 65 90 c || inRange 97 122 c || (c =? 95).

(** [\w] is [A-Za-z0-9_]; [\W] is its complement. *)
Definition isWord (c : N) : bool := isLetter c || isDigit c.
Definition isNonWord (c : N) : bool := negb (isWord c).

(** LineTerminator of ECMAScript: LF, CR, U+2028, U+2029.  The regex
    atom [.] matches every code unit but these. *)
Definition isLineTerminator (c : N) : bool :=
  (c =? LF) || (c =? CR) || (c =? 8232) || (c =? 8233).

(** WhiteSpace and LineTerminator of ECMAScript: what [\s] matches and
    what [String.prototype.trim] strips. *)
Definition isSpace (c : N) : bool :=
  inRange 9 13 c || (c =? SP) || (c =? 160) || (c =? 5760)
  || inRange 8192 8202 c || (c =? 8232) || (c =? 8233)
  || (c =? 8239) || (c =? 8287) || (c =? 12288) || (c =? 65279).

(** [[ \t]] *)
Definition isBlank (c : N) : bool := (c =? SP) || (c =? TAB).

(** The sentence terminators of the source: the full-width marks
    U+3002, U+FF01, U+FF1F, U+FF1A, U+FF1B and ASCII [. ! ? : ;]. *)
Definition isTerminator (c : N) : bool :=
  (c =? 12290) || (c =? 65281) || (c =? 65311) || (c =? 65306)
  || (c =? 65307)
  || (c =? 46) || (c =? 33) || (c =? 63) || (c =? 58) || (c =? 59).

(** [[\d•\-\*]]: a digit, the bullet U+2022, a hyphen or an asterisk. *)
Definition isListMarker (c : N) : bool :=
  isDigit c || (c =? 8226) || (c =? 45) || (c =? 42).

(** The CJK numerals of the heading pattern:
    U+4E00 U+4E8C U+4E09 U+56DB U+4E94 U+516D U+4E03 U+516B U+4E5D
    U+5341 U+767E U+5343 U+4E07. *)
Definition isCjkNumeral (c : N) : bool :=
  existsb (N.eqb c)
    [19968; 20108; 19977; 22235; 20116; 20845; 19971; 20843; 20061;
     21313; 30334; 21315; 19975].

(** U+7B2C, the ordinal prefix of a CJK heading. *)
Definition DI : N := 31532.

(** [[章节篇]]: U+7AE0, U+8282, U+7BC7. *)
Definition isCjkUnit (c : N) : bool :=
  (c =? 31456) || (c =? 33410) || (c =? 31687).

(** [[\.\、]]: a full stop or the ideographic comma U+3001. *)
Definition isEnumPunct (c : N) : bool := (c =? 46) || (c =? 12289).
End Char.

(** ** String methods *)

Fixpoint dropWhile (p : N -> bool) (s : jsstring) : jsstring :=
  match s with
  | [] => []
  | c :: r => if p c then dropWhile p r else s
  end.

Fixpoint takeWhile (p : N -> bool) (s : jsstring) : jsstring :=
  match s with
  | [] => []
  | c :: r => if p c then c :: takeWhile p r else []
  end.

Definition trimStart (s : jsstring) : jsstring := dropWhile Char.isSpace s.

Fixpoint trimEnd (s : jsstring) : jsstring :=
  match s with
  | [] => []
  | c :: r =>
      match trimEnd r with
      | [] => if Char.isSpace c then [] else [c]
      | r' => c :: r'
      end
  end.

(** [s.trim()] *)
Definition trim (s : jsstring) : jsstring := trimEnd (trimStart s).

(** [s.split(/\n/)]: never empty, [[""]] for the empty string. *)
Fixpoint split (s : jsstring) : list jsstring :=
  match s with
  | [] => [[]]
  | c :: r =>
      if N.eqb c Char.LF then [] :: split r
      else match split r with
           | l :: ls => (c :: l) :: ls
           | [] => [[c]]
           end
  end.

(** The last code unit of [s] satisfies [p]: [s.endsWith(x)] for a
    one-unit [x], and a one-unit class before [$]. *)
Definition lastIs (p : N -> bool) (s : jsstring) : bool :=
  match rev s with
  | [] => false
  | c :: _ => p c
  end.

(** The first code unit of [s] satisfies [p]: a one-unit class after [^]. *)
Definition firstIs (p : N -> bool) (s : jsstring) : bool :=
  match s with
  | [] => false
  | c :: _ => p c
  end.

(** A JavaScript string is truthy when it is not empty. *)
Definition truthy (s : jsstring) : bool :=
  match s with
  | [] => false
  | _ :: _ => true
  end.

(** ** Global regex replacement

    [s.replace(/re/g, repl)] scans [s] from the left.  [matcher t] is the
    length of the match of [re] anchored at the start of the rest [t] of
    the input, if there is one.  After a match the scan resumes behind
    it; an empty match inserts [repl] and moves one unit on. *)

Section Replace.
Variable matcher : jsstring -> option nat.
Variable repl : jsstring.

Fixpoint replaceFrom (skip : nat) (s : jsstring) : jsstring :=
  match s with
  | [] =>
      match skip, matcher [] with
      | 0, Some _ => repl
      | _, _ => []
      end
  | c :: r =>
      match skip with
      | S k => replaceFrom k r
      | 0 =>
          match matcher s with
          | Some 0 => repl ++ c :: replaceFrom 0 r
          | Some (S k) => repl ++ replaceFrom k r
          | None => c :: replaceFrom 0 r
          end
      end
  end.

Definition replaceAll (s : jsstring) : jsstring := replaceFrom 0 s.
End Replace.

(** [/\r\n/] *)
Definition matchCRLF (s : jsstring) : option nat :=
  match s with
  | c :: d :: _ => if N.eqb c Char.CR && N.eqb d Char.LF then Some 2 else None
  | _ => None
  end.

(** [/\n{3,}/]: the quantifier is greedy, the match is the whole run. *)
Definition matchLF3 (s : jsstring) : option nat :=
  let n := length (takeWhile (N.eqb Char.LF) s) in
  if 3 <=? n then Some n else None.

(** [/[ \t]+/] *)
Definition matchBlanks (s : jsstring) : option nat :=
  let n := length (takeWhile Char.isBlank s) in
  if 1 <=? n then Some n else None.

(** ** Stage 1: normalisation *)

Definition replaceCRLF : jsstring -> jsstring := replaceAll matchCRLF [Char.LF].
Definition collapseLF : jsstring -> jsstring :=
  replaceAll matchLF3 [Char.LF; Char.LF].
Definition collapseBlanks : jsstring -> jsstring :=
  replaceAll matchBlanks [Char.SP].

Definition normalize (text : jsstring) : jsstring :=
  trim (collapseBlanks (collapseLF (replaceCRLF text))).

(** ** Failure

    Reading a property of [undefined], such as [lines[i].length] for an
    index outside the array, raises a [TypeError].  It is the only way
    the code of [detectParagraphs] can fail, and it is kept explicit. *)

Inductive result (A : Type) : Type :=
| Ok (a : A)
| TypeError.

Arguments TypeError {A}.

Definition bind {A B : Type} (c : result A) (k : A -> result B) : result B :=
  match c with
  | Ok a => k a
  | TypeError => TypeError
  end.

Notation "x <- c ;; k" := (bind c (fun x => k))
  (at level 61, c at next level, right associativity).

(** [a || b] and [a && b] evaluate [b] only when [a] does not decide. *)
Definition orR (a : bool) (b : result bool) : result bool :=
  if a then Ok true else b.
Definition andR (a : bool) (b : result bool) : result bool :=
  if a then b else Ok false.

(** [lines[i]], to be dereferenced. *)
Definition at_ (lines : list jsstring) (i : nat) : result jsstring :=
  match nth_error lines i with
  | Some l => Ok l
  | None => TypeError
  end.

(** ** Stage 2: line grouping *)

(** [[p]+[q]] anchored at the start of [s]: one unit of [p], then either
    more of the same or the closing unit of [q]. *)
Fixpoint plusThen (p q : N -> bool) (s : jsstring) : bool :=
  match s with
  | [] => false
  | c :: r => p c && (plusThen p q r || firstIs q r)
  end.

(** The structural marker: a CJK chapter heading or a numbered item. *)
Definition isStructural (line : jsstring) : bool :=
  match line with
  | [] => false
  | c :: r =>
      (N.eqb c Char.DI && plusThen Char.isCjkNumeral Char.isCjkUnit r)
      || plusThen Char.isDigit Char.isEnumPunct line
  end.

Record state : Type := State {
  paragraphs : list jsstring;
  currentParagraph : jsstring
}.

Definition shouldStartNewParagraph
    (lines : list jsstring) (i : nat) (cur line : jsstring) : result bool :=
  orR (truthy cur && lastIs Char.isTerminator cur)
    (orR (firstIs Char.isListMarker line)
       (short <- andR ((length line <? 20) && (0 <? i))
                   (prev <- at_ lines (i - 1) ;; Ok (40 <? length prev)) ;;
        orR short (Ok (isStructural line)))).

(** [lines.length - 1] is never negative: [split] returns at least one
    line, and the loop makes no turn on an empty array. *)
Definition isContinuation
    (lines : list jsstring) (i : nat) (line : jsstring) : result bool :=
  andR (i <? length lines - 1)
    (andR (negb (lastIs Char.isTerminator line))
       (next <- at_ lines (i + 1) ;; Ok (negb (isStructural (trim next))))).

(** [if (current) paragraphs.push(current)] *)
Definition pushCurrent (st : state) : list jsstring :=
  if truthy (currentParagraph st)
  then paragraphs st ++ [currentParagraph st]
  else paragraphs st.

(** One turn of the [for] loop. *)
Definition body (lines : list jsstring) (i : nat) (st : state) : result state :=
  raw <- at_ lines i ;;
  let line := trim raw in
  if negb (truthy line) then
    Ok (if truthy (currentParagraph st)
        then State (paragraphs st ++ [currentParagraph st]) []
        else st)
  else
    start <- shouldStartNewParagraph lines i (currentParagraph st) line ;;
    if start && truthy (currentParagraph st) then
      Ok (State (paragraphs st ++ [currentParagraph st]) line)
    else
      cont <- isContinuation lines i line ;;
      if cont then
        Ok (State (paragraphs st)
              (if truthy (currentParagraph st)
               then currentParagraph st ++ [Char.SP] ++ line
               else line))
      else
        Ok (State (pushCurrent st) line).

(** [for (let i = 0; i < lines.length; i++)] *)
Definition loop (lines : list jsstring) : result state :=
  fold_left (fun acc i => st <- acc ;; body lines i st)
    (seq 0 (length lines)) (Ok (State [] [])).

(** The paragraphs before the post-filter. *)
Definition groupLines (normalizedText : jsstring) : result (list jsstring) :=
  st <- loop (split normalizedText) ;;
  Ok (pushCurrent st).

(** ** Stage 3: post-filter *)

(** [/^[\d\s\W]+$/.test(p)] *)
Definition isNoise (p : jsstring) : bool :=
  truthy p
  && forallb (fun c => Char.isDigit c || Char.isSpace c || Char.isNonWord c) p.

(** [/(.)\1{10,}/.test(p)]: at some position a unit that [.] matches is
    followed by ten or more copies of itself. *)
Fixpoint hasRepeat (p : jsstring) : bool :=
  match p with
  | [] => false
  | c :: r =>
      (negb (Char.isLineTerminator c)
       && (10 <=? length (takeWhile (N.eqb c) r)))
      || hasRepeat r
  end.

Definition keep (p : jsstring) : bool :=
  if length p <? 10 then false
  else if isNoise p then false
  else if hasRepeat p then false
  else true.

Definition postFilter (ps : list jsstring) : list jsstring :=
  filter keep (map trim ps).

(** ** The segmenter *)

Definition detectParagraphs (text : jsstring) : result (list jsstring) :=
  ps <- groupLines (normalize text) ;;
  Ok (postFilter ps).

(** ** The loop as a recursion on the lines

    The loop reads [lines[i-1]] for its length and [lines[i+1]] for its
    marker.  [bodyOn prev next raw st] is one turn for the line [raw]
    between [prev] and [next]; it cannot fail. *)

Definition startOn (prev : option jsstring) (cur line : jsstring) : bool :=
  (truthy cur && lastIs Char.isTerminator cur)
  || firstIs Char.isListMarker line
  || (length line <? 20)
     && match prev with Some p => 40 <? length p | None => false end
  || isStructural line.

Definition contOn (next : option jsstring) (line : jsstring) : bool :=
  match next with
  | Some n => negb (lastIs Char.isTerminator line) && negb (isStructural (trim n))
  | None => false
  end.

Definition bodyOn (prev next : option jsstring) (raw : jsstring) (st : state)
  : state :=
  let line := trim raw in
  let cur := currentParagraph st in
  if negb (truthy line) then
    if truthy cur then State (paragraphs st ++ [cur]) [] else st
  else if startOn prev cur line && truthy cur then
    State (paragraphs st ++ [cur]) line
  else if contOn next line then
    State (paragraphs st)
      (if truthy cur then cur ++ [Char.SP] ++ line else line)
  else State (pushCurrent st) line.

Fixpoint groupFrom (prev : option jsstring) (ls : list jsstring) (st : state)
  : state :=
  match ls with
  | [] => st
  | raw :: rest => groupFrom (Some raw) rest (bodyOn prev (hd_error rest) raw st)
  end.

(** The last line of [pre], if any. *)
Definition lastLine (pre : list jsstring) : option jsstring :=
  match rev pre with
  | [] => None
  | l :: _ => Some l
  end.

(** ** Vocabulary of the properties *)

Definition matched (o : option nat) : bool :=
  match o with
  | Some _ => true
  | None => false
  end.

(** [re] matches somewhere in [s]. *)
Fixpoint matchesIn (matcher : jsstring -> option nat) (s : jsstring) : bool :=
  match s with
  | [] => matched (matcher [])
  | _ :: r => matched (matcher s) || matchesIn matcher r
  end.

(** A carriage return immediately followed by a line feed. *)
Definition hasCRLF : jsstring -> bool := matchesIn matchCRLF.

(** Three line feeds in a row. *)
Definition hasLF3 : jsstring -> bool := matchesIn matchLF3.

(** The length of the run of line feeds at the start of [s]. *)
Definition lfRun (s : jsstring) : nat := length (takeWhile (N.eqb Char.LF) s).

(** No tab and no two spaces in a row. *)
Fixpoint blanksNormal (s : jsstring) : bool :=
  match s with
  | [] => true
  | c :: r =>
      negb (N.eqb c Char.TAB)
      && negb (N.eqb c Char.SP && firstIs (fun d => N.eqb d Char.SP) r)
      && blanksNormal r
  end.

(** No carriage return. *)
Definition notCR (c : N) : bool := negb (N.eqb c Char.CR).

(** Every carriage return of [s] is the first half of a CRLF pair. *)
Fixpoint crOnlyInCRLF (s : jsstring) : bool :=
  match s with
  | [] => true
  | c :: r =>
      (negb (N.eqb c Char.CR) || firstIs (fun d => N.eqb d Char.LF) r)
      && crOnlyInCRLF r
  end.

(** A run of [n] copies of [c] somewhere in [p]. *)
Definition hasRunOf (c : N) (n : nat) (p : jsstring) : Prop :=
  exists pre post, p = pre ++ repeat c n ++ post.

(** Only digits, whitespace and non-word symbols, and at least one. *)
Definition onlyNoise (p : jsstring) : Prop :=
  p <> [] /\
  Forall (fun c => Char.isDigit c = true \/ Char.isSpace c = true
                   \/ Char.isNonWord c = true) p.

(** A subsequence: some elements dropped, the others in their order. *)
Inductive Subseq {A : Type} : list A -> list A -> Prop :=
| Subseq_nil : Subseq [] []
| Subseq_drop x l1 l2 : Subseq l1 l2 -> Subseq l1 (x :: l2)
| Subseq_keep x l1 l2 : Subseq l1 l2 -> Subseq (x :: l1) (x :: l2).

(** The lines of a paragraph joined by single spaces. *)
Fixpoint joinSP (block : list jsstring) : jsstring :=
  match block with
  | [] => []
  | l :: rest =>
      match rest with
      | [] => l
      | _ :: _ => l ++ [Char.SP] ++ joinSP rest
      end
  end.

(** The loop invariant: the finished paragraphs are the joined [blocks]
    of lines, the accumulator is the joined block [cb] of non-blank
    lines. *)
Definition Grouped (st : state) (blocks : list (list jsstring))
    (cb : list jsstring) : Prop :=
  paragraphs st = map joinSP blocks
  /\ currentParagraph st = joinSP cb
  /\ Forall (fun b => b <> []) blocks
  /\ Forall (fun l => truthy l = true) cb.

(** ** Sample texts *)

Module Sample.
Import Char.

Definition wrapped1 : jsstring := js "This is a long line that continues".
Definition wrapped2 : jsstring := js "onto the next line without punctuation.".
(** ["This is a long line that continues\nonto the next line without punctuation."] *)
Definition wrapped : jsstring := wrapped1 ++ [LF] ++ wrapped2.

(** ["A.\n\nB."] *)
Definition blankLine : jsstring := js "A." ++ [LF; LF] ++ js "B.".

(** ["Intro text.\n1. First item\n2. Second item"] *)
Definition numbered : jsstring :=
  js "Intro text." ++ [LF] ++ js "1. First item" ++ [LF] ++ js "2. Second item".

(** ["a\rb"]: a lone carriage return inside a line. *)
Definition loneCR : jsstring := js "a" ++ [CR] ++ js "b".

(** ["a\r\r\nb"] *)
Definition doubleCR : jsstring := js "a" ++ [CR; CR; LF] ++ js "b".

(** ["abcdefghij" + "\r" x 11 + "k"] *)
Definition crRun : jsstring := js "abcdefghij" ++ repeat CR 11 ++ js "k".

(** U+4E2D U+534E U+4EBA U+6C11 U+5171 U+548C U+56FD U+662F U+5DE5
    U+4EBA U+9636 U+7EA7 U+9886 U+5BFC U+7684: fifteen Han characters. *)
Definition han : jsstring :=
  [20013; 21326; 20154; 27665; 20849; 21644; 22269; 26159; 24037;
   20154; 38454; 32423; 39046; 23548; 30340]%N.
End Sample.

(** ** Vocabulary of the further properties *)

(** No line feed. *)
Definition notLF (c : N) : bool := negb (N.eqb c Char.LF).

(** A block with a line that ends in a sentence terminator has no other
    line. *)
Definition aloneIfClosed (b : list jsstring) : bool :=
  (length b <=? 1)
  || forallb (fun l => negb (lastIs Char.isTerminator l)) b.

(** No line of a block but its first starts with a list marker or with a
    structural marker. *)
Definition markersFirst (b : list jsstring) : bool :=
  forallb (fun l => negb (firstIs Char.isListMarker l) && negb (isStructural l))
    (tl b).

(** The text with every line feed written as CRLF. *)
Fixpoint toCRLF (s : jsstring) : jsstring :=
  match s with
  | [] => []
  | c :: r =>
      if N.eqb c Char.LF then Char.CR :: Char.LF :: toCRLF r
      else c :: toCRLF r
  end.

(** The loop invariant [Grouped], with the shape of the blocks. *)
Definition Cut (st : state) (blocks : list (list jsstring))
    (cb : list jsstring) : Prop :=
  Grouped st blocks cb
  /\ Forall (fun b => aloneIfClosed b = true /\ markersFirst b = true)
       (cb :: blocks).

(** ** The service around the segmenter

    [parsePdfAndSave] extracts the text of a PDF, segments it with
    [detectParagraphs] and stores one document per paragraph through
    [addDocuments].  The PDF parser, the embedding API, the vector store
    and the UUID generator are outside the repository: they are the
    fields of [Externals], arbitrary operations on a state [world] of
    their own that return or throw.  [console.log] is left out. *)

Module Service.

(** What an [await] ends in: a value, or an [Error] with its message. *)
Inductive outcome (A : Type) : Type :=
| Return (a : A)
| Throw (message : jsstring).

Arguments Throw {A}.

Definition M (W A : Type) : Type := W -> outcome A * W.

Definition ret {W A : Type} (a : A) : M W A := fun w => (Return a, w).

Definition throw {W A : Type} (message : jsstring) : M W A :=
  fun w => (Throw message, w).

Definition bindM {W A B : Type} (c : M W A) (k : A -> M W B) : M W B :=
  fun w =>
    match c w with
    | (Return a, w') => k a w'
    | (Throw e, w') => (Throw e, w')
    end.

(** [try { c } catch (error) { h error.message }] *)
Definition tryCatch {W A : Type} (c : M W A) (h : jsstring -> M W A) : M W A :=
  fun w =>
    match c w with
    | (Return a, w') => (Return a, w')
    | (Throw e, w') => h e w'
    end.

Notation "x <<- c ;; k" := (bindM c (fun x => k))
  (at level 61, c at next level, right associativity).

(** The message of the [TypeError] of the engine; its wording plays no
    part. *)
Definition typeError : jsstring := js "Cannot read properties of undefined".

(** The values of a metadata object. *)
Inductive jsvalue : Type :=
| VString (s : jsstring)
| VNumber (n : nat).

(** [Record<string, any>] *)
Definition Metadata : Type := list (String.string * jsvalue).

(** [Document] of knowledge-base.types: [id] and [metadata] are
    optional. *)
Record Document : Type := {
  id : option jsstring;
  content : jsstring;
  metadata : option Metadata
}.

(** A point as [upsert] receives it. *)
Record Point (vector : Type) : Type := {
  pointId : jsstring;
  pointVector : vector;
  payloadContent : jsstring;
  payloadMetadata : Metadata
}.

(** What [pdfParse] resolves to, as far as it is read. *)
Record PdfData : Type := {
  text : jsstring;
  numpages : nat
}.


(** The request of a chat completion: the model, the contents of the
    system and of the user message, and the temperature in tenths (0.3 is
    3, 0.7 is 7). *)
Record ChatRequest : Type := {
  model : jsstring;
  system : jsstring;
  user : jsstring;
  temperatureTenths : nat
}.

(** The payload of a stored point, as a search returns it. *)
Record Payload : Type := {
  hitContent : jsstring;
  hitMetadata : option Metadata
}.

(** A search result; [hitId] is [result.id.toString()]. *)
Record Hit (score : Type) : Type := {
  hitId : jsstring;
  hitScore : score;
  hitPayload : option Payload
}.

(** A document of a [QueryResponse]. *)
Record Found (score : Type) : Type := {
  foundId : jsstring;
  foundScore : option score;
  foundContent : jsstring;
  foundMetadata : Metadata
}.

Record QueryRequest : Type := {
  query : jsstring;
  limit : option nat
}.

Record Externals : Type := {
  world : Type;
  vector : Type;
  buffer : Type;
  score : Type;
  (** [uuidv4()] *)
  uuidv4 : M world jsstring;
  (** [openaiClient.embeddings.create]: the embeddings of [response.data] *)
  embeddingsCreate : jsstring -> M world (list vector);
  (** [qdrantClient.upsert] of one point *)
  upsert : Point vector -> M world unit;
  (** [pdfParse(buffer)] *)
  pdfParse : buffer -> M world PdfData;
  (** [openaiClient.chat.completions.create]: the [message.content] of
      [response.choices], [None] for [null] *)
  chatCreate : ChatRequest -> M world (list (option jsstring));
  (** [qdrantClient.search] with a vector and a limit *)
  search : vector -> nat -> M world (list (Hit score))
}.

(** [response.data[0].embedding] *)
Definition getEmbedding (E : Externals) (t : jsstring)
  : M (world E) (vector E) :=
  data <<- embeddingsCreate E t ;;
  match data with
  | e :: _ => ret e
  | [] => throw typeError
  end.

(** The [id] of a document that counts in [doc.id || uuidv4()]: one that
    is neither missing nor empty. *)
Definition ownId (doc : Document) : option jsstring :=
  match id doc with
  | Some i => if truthy i then Some i else None
  | None => None
  end.

(** [doc.metadata || {}] *)
Definition metadataOrEmpty (doc : Document) : Metadata :=
  match metadata doc with
  | Some m => m
  | None => []
  end.

(** The point that [addDocuments] stores for [doc]. *)
Definition pointOf {V : Type} (i : jsstring) (embedding : V) (doc : Document)
  : Point V :=
  {| pointId := i;
     pointVector := embedding;
     payloadContent := content doc;
     payloadMetadata := metadataOrEmpty doc |}.

(** [doc.id || uuidv4()] *)
Definition chooseId (E : Externals) (doc : Document) : M (world E) jsstring :=
  match ownId doc with
  | Some i => ret i
  | None => uuidv4 E
  end.

(** The [for ... of] loop of [addDocuments], with the array [ids]. *)
Fixpoint addLoop (E : Externals) (docs : list Document) (ids : list jsstring)
  : M (world E) (list jsstring) :=
  match docs with
  | [] => ret ids
  | doc :: rest =>
      i <<- chooseId E doc ;;
      embedding <<- getEmbedding E (content doc) ;;
      _ <<- upsert E (pointOf i embedding doc) ;;
      addLoop E rest (ids ++ [i])
  end.

Definition addDocuments (E : Externals) (docs : list Document)
  : M (world E) (list jsstring) :=
  addLoop E docs [].

(** [l.map((x, index) => f x index)], from [index] on. *)
Fixpoint mapi {A B : Type} (f : A -> nat -> B) (index : nat) (l : list A)
  : list B :=
  match l with
  | [] => []
  | x :: r => f x index :: mapi f (S index) r
  end.





(** The same externals, with a log of the points stored: every [upsert]
    that returns appends its point. *)
Definition logged (E : Externals) : Externals :=
  {| world := world E * list (Point (vector E));
     vector := vector E;
     buffer := buffer E;
     score := score E;
     uuidv4 := fun s =>
       match uuidv4 E (fst s) with
       | (o, w) => (o, (w, snd s))
       end;
     embeddingsCreate := fun t s =>
       match embeddingsCreate E t (fst s) with
       | (o, w) => (o, (w, snd s))
       end;
     upsert := fun pt s =>
       match upsert E pt (fst s) with
       | (Return u, w) => (Return u, (w, snd s ++ [pt]))
       | (Throw e, w) => (Throw e, (w, snd s))
       end;
     pdfParse := fun b s =>
       match pdfParse E b (fst s) with
       | (o, w) => (o, (w, snd s))
       end;
     chatCreate := fun r s =>
       match chatCreate E r (fst s) with
       | (o, w) => (o, (w, snd s))
       end;
     search := fun v n s =>
       match search E v n (fst s) with
       | (o, w) => (o, (w, snd s))
       end |}.

(** [response.choices[0].message.content.trim()] *)
Definition firstContent {W : Type} (choices : list (option jsstring))
  : M W jsstring :=
  match choices with
  | Some c :: _ => ret (trim c)
  | _ => throw typeError
  end.

Definition chatModel : jsstring := js "gpt-3.5-turbo".

Definition optimizePrompt : jsstring :=
  js "You are a query optimization assistant. Rewrite the following query to make it more effective for semantic search.".

Definition answerPrompt : jsstring :=
  js "You are a helpful assistant. Answer the user's question based on the following context: "
  ++ [Char.LF; Char.LF].

Definition apology : jsstring :=
  js "Sorry, I was unable to generate an answer. Please try again.".

Definition optimizeQuery (E : Externals) (q : jsstring) : M (world E) jsstring :=
  tryCatch
    (choices <<- chatCreate E
                   {| model := chatModel;
                      system := optimizePrompt;
                      user := q;
                      temperatureTenths := 3 |} ;;
     firstContent choices)
    (fun _ => ret q).

(** [a.join(sep)] *)
Fixpoint join (sep : jsstring) (a : list jsstring) : jsstring :=
  match a with
  | [] => []
  | x :: r =>
      match r with
      | [] => x
      | _ :: _ => x ++ sep ++ join sep r
      end
  end.

Definition generateAnswer (E : Externals) (q : jsstring)
    (documents : list (Found (score E))) : M (world E) jsstring :=
  let context :=
    join [Char.LF; Char.LF] (map (@foundContent (score E)) documents) in
  tryCatch
    (choices <<- chatCreate E
                   {| model := chatModel;
                      system := answerPrompt ++ context;
                      user := q;
                      temperatureTenths := 7 |} ;;
     firstContent choices)
    (fun _ => ret apology).

(** The document made of a search result. *)
Definition foundOf {S : Type} (result : Hit S) : Found S :=
  match hitPayload result with
  | None =>
      {| foundId := hitId result;
         foundScore := None;
         foundContent := [];
         foundMetadata := [] |}
  | Some payload =>
      {| foundId := hitId result;
         foundScore := Some (hitScore result);
         foundContent := hitContent payload;
         foundMetadata :=
           match hitMetadata payload with
           | Some m => m
           | None => []
           end |}
  end.

(** [request.limit || 5] *)
Definition limitOf (request : QueryRequest) : nat :=
  match limit request with
  | Some (S n) => S n
  | _ => 5
  end.

Definition queryDocuments (E : Externals) (request : QueryRequest)
  : M (world E) (list (Found (score E))) :=
  optimizedQuery <<- optimizeQuery E (query request) ;;
  embedding <<- getEmbedding E optimizedQuery ;;
  searchResult <<- search E embedding (limitOf request) ;;
  ret (map foundOf searchResult).

(** The [answer] route of the controller. *)
Definition answer (E : Externals) (request : QueryRequest)
  : M (world E) jsstring :=
  queryResponse <<- queryDocuments E request ;;
  generateAnswer E (query request) queryResponse.

(** Externals to run the service on: the world counts the UUIDs handed
    out, an embedding is the length of the text, the store accepts every
    point and finds one that has lost its payload, a buffer is its own
    text on one page, and the chat API is down. *)
Definition counting : Externals :=
  {| world := nat;
     vector := nat;
     buffer := jsstring;
     score := nat;
     uuidv4 := fun n => (Return (repeat 117%N (S n)), S n);
     embeddingsCreate := fun t n => (Return [length t], n);
     upsert := fun _ n => (Return tt, n);
     pdfParse := fun b n => (Return {| text := b; numpages := 1 |}, n);
     chatCreate := fun _ n => (Throw (js "chat down"), n);
     search := fun v k n =>
       (Return [{| hitId := js "u"; hitScore := k; hitPayload := None |}], n) |}.

(** The same, with a store that cannot be searched. *)
Definition searchDown : Externals :=
  {| world := nat;
     vector := nat;
     buffer := jsstring;
     score := nat;
     uuidv4 := uuidv4 counting;
     embeddingsCreate := embeddingsCreate counting;
     upsert := upsert counting;
     pdfParse := pdfParse counting;
     chatCreate := chatCreate counting;
     search := fun _ _ n => (Throw (js "search down"), n) |}.

End Service.

(** ** The segmentation of knowledge-base.service.ts

    The [parsePdfAndSave] of src/knowledge-base/knowledge-base.service.ts
    does not call [detectParagraphs]: it cuts the text at blank lines,
    [text.split(/\n\s*\n/).map(p => p.trim()).filter(p => p.length > 0)]. *)

Module Plain.

(** [\s*\n] anchored at the start of [s], the length of its match: the
    star is greedy, it takes a whitespace unit and goes on if the rest
    can still match, and stops before a line feed otherwise. *)
Fixpoint matchSpacesLF (s : jsstring) : option nat :=
  match s with
  | [] => None
  | c :: r =>
      match (if Char.isSpace c then matchSpacesLF r else None) with
      | Some n => Some (S n)
      | None => if N.eqb c Char.LF then Some 1 else None
      end
  end.

(** [/\n\s*\n/] *)
Definition matchBlankLine (s : jsstring) : option nat :=
  match s with
  | [] => None
  | c :: r =>
      if N.eqb c Char.LF
      then match matchSpacesLF r with
           | Some n => Some (S n)
           | None => None
           end
      else None
  end.

Section Split.
Variable matcher : jsstring -> option nat.

(** [s.split(/re/)] for a pattern that matches no empty string: [piece]
    is the text since the last match, [skip] what is left of a match. *)
Fixpoint splitFrom (skip : nat) (piece : jsstring) (s : jsstring)
  : list jsstring :=
  match s with
  | [] => [piece]
  | c :: r =>
      match skip with
      | S k => splitFrom k piece r
      | 0 =>
          match matcher s with
          | Some (S k) => piece :: splitFrom k [] r
          | _ => splitFrom 0 (piece ++ [c]) r
          end
      end
  end.

Definition splitAll (s : jsstring) : list jsstring := splitFrom 0 [] s.
End Split.

Definition splitParagraphs (text : jsstring) : list jsstring :=
  filter truthy (map trim (splitAll matchBlankLine text)).

(** No line feed is followed by whitespace only up to the next line
    feed; [armed] says that the text before ends in a line feed and
    whitespace. *)
Fixpoint noBlank (armed : bool) (p : jsstring) : bool :=
  match p with
  | [] => true
  | c :: r =>
      if N.eqb c Char.LF then negb armed && noBlank true r
      else noBlank (armed && Char.isSpace c) r
  end.

(** Whether [p], read after a text that is [armed] or not, ends in a line
    feed and whitespace. *)
Fixpoint armedAfter (armed : bool) (p : jsstring) : bool :=
  match p with
  | [] => armed
  | c :: r =>
      armedAfter (if N.eqb c Char.LF then true else armed && Char.isSpace c) r
  end.

End Plain.

(** ** The loop never fails *)

Lemma at_app (pre : list jsstring) (raw : jsstring) (rest : list jsstring) :
  at_ (pre ++ raw :: rest) (length pre) = Ok raw.
Proof.
  unfold at_. rewrite nth_error_app2 by lia.
  now rewrite Nat.sub_diag.
Qed.

Lemma lastLine_snoc (pre : list jsstring) (l : jsstring) :
  lastLine (pre ++ [l]) = Some l.
Proof. unfold lastLine. now rewrite rev_app_distr. Qed.

Lemma at_prev (pre : list jsstring) (rest : list jsstring) :
  0 < length pre ->
  exists p, lastLine pre = Some p /\ at_ (pre ++ rest) (length pre - 1) = Ok p.
Proof.
  intros Hpos. destruct (rev pre) as [|p q] eqn:E.
  - apply (f_equal (@length _)) in E. rewrite length_rev in E. simpl in E. lia.
  - assert (Hpre : pre = rev q ++ [p]).
    { rewrite <- (rev_involutive pre), E. reflexivity. }
    exists p. split.
    + unfold lastLine. now rewrite E.
    + subst pre. rewrite <- app_assoc. simpl.
      rewrite length_app. simpl.
      replace (length (rev q) + 1 - 1) with (length (rev q)) by lia.
      apply at_app.
Qed.

Lemma at_next (pre : list jsstring) (raw : jsstring) (rest : list jsstring) :
  at_ (pre ++ raw :: rest) (length pre + 1) =
  match hd_error rest with Some n => Ok n | None => TypeError end.
Proof.
  unfold at_. rewrite nth_error_app2 by lia.
  replace (length pre + 1 - length pre) with 1 by lia.
  simpl. now destruct rest.
Qed.

Lemma shouldStart_startOn (pre : list jsstring) (raw : jsstring)
    (rest : list jsstring) (cur line : jsstring) :
  shouldStartNewParagraph (pre ++ raw :: rest) (length pre) cur line =
  Ok (startOn (lastLine pre) cur line).
Proof.
  unfold shouldStartNewParagraph, startOn.
  destruct (truthy cur && lastIs Char.isTerminator cur); [reflexivity|].
  destruct (firstIs Char.isListMarker line); [reflexivity|].
  cbn [orR orb].
  destruct (length line <? 20); cbn [andb].
  - destruct pre as [|p0 pre'].
    + reflexivity.
    + destruct (@at_prev (p0 :: pre') (raw :: rest)) as (p & Hl & Ha).
      { simpl. lia. }
      rewrite Hl, Ha.
      replace (0 <? length (p0 :: pre')) with true by reflexivity.
      cbn [andR bind]. now destruct (40 <? length p).
  - reflexivity.
Qed.

Lemma isContinuation_contOn (pre : list jsstring) (raw : jsstring)
    (rest : list jsstring) (line : jsstring) :
  isContinuation (pre ++ raw :: rest) (length pre) line =
  Ok (contOn (hd_error rest) line).
Proof.
  unfold isContinuation, contOn. rewrite at_next.
  replace (length pre <? length (pre ++ raw :: rest) - 1)
    with (match hd_error rest with Some _ => true | None => false end).
  - destruct (hd_error rest); [|reflexivity].
    cbn [andR]. now destruct (lastIs Char.isTerminator line).
  - rewrite length_app. simpl. symmetry. destruct rest; simpl.
    + apply Nat.ltb_ge. lia.
    + apply Nat.ltb_lt. lia.
Qed.

Lemma body_bodyOn (pre : list jsstring) (raw : jsstring) (rest : list jsstring)
    (st : state) :
  body (pre ++ raw :: rest) (length pre) st =
  Ok (bodyOn (lastLine pre) (hd_error rest) raw st).
Proof.
  unfold body, bodyOn. rewrite at_app. cbn [bind].
  destruct (truthy (trim raw)); cbn [negb]; [|reflexivity].
  rewrite shouldStart_startOn. cbn [bind].
  destruct (startOn _ _ _ && truthy (currentParagraph st)); [reflexivity|].
  rewrite isContinuation_contOn. cbn [bind].
  now destruct (contOn _ _).
Qed.

Lemma loop_from (ls pre : list jsstring) (st : state) :
  fold_left (fun acc i => st <- acc ;; body (pre ++ ls) i st)
    (seq (length pre) (length ls)) (Ok st)
  = Ok (groupFrom (lastLine pre) ls st).
Proof.
  revert pre st. induction ls as [|raw rest IH]; intros pre st.
  - reflexivity.
  - cbn [length seq fold_left bind groupFrom].
    rewrite body_bodyOn.
    specialize (IH (pre ++ [raw]) (bodyOn (lastLine pre) (hd_error rest) raw st)).
    rewrite <- app_assoc in IH. cbn [app] in IH.
    rewrite length_app in IH. cbn [length] in IH.
    rewrite Nat.add_1_r in IH. rewrite IH.
    now rewrite lastLine_snoc.
Qed.

Lemma loop_groupFrom (lines : list jsstring) :
  loop lines = Ok (groupFrom None lines (State [] [])).
Proof. exact (loop_from lines [] (State [] [])). Qed.

Lemma groupLines_ok (t : jsstring) :
  groupLines t = Ok (pushCurrent (groupFrom None (split t) (State [] []))).
Proof. unfold groupLines. now rewrite loop_groupFrom. Qed.

Lemma detectParagraphs_ok (text : jsstring) :
  detectParagraphs text =
  Ok (postFilter
        (pushCurrent (groupFrom None (split (normalize text)) (State [] [])))).
Proof. unfold detectParagraphs. now rewrite groupLines_ok. Qed.

(** ** Character classes *)

Ltac char_unfold :=
  unfold Char.isLetter, Char.isWord, Char.isNonWord, Char.isDigit,
    Char.isSpace, Char.isBlank, Char.isLineTerminator, Char.inRange,
    Char.TAB, Char.LF, Char.CR, Char.SP in *.

Ltac char_cases :=
  char_unfold;
  repeat (match goal with
          | |- context [N.leb ?a ?b] => destruct (N.leb_spec a b)
          | |- context [N.eqb ?a ?b] => destruct (N.eqb_spec a b)
          | H : context [N.leb ?a ?b] |- _ => destruct (N.leb_spec a b)
          | H : context [N.eqb ?a ?b] |- _ => destruct (N.eqb_spec a b)
          end; try lia; cbn [andb orb negb] in *);
  try reflexivity; try discriminate; try lia.

(** What is no ASCII letter and no underscore is a digit or a non-word
    unit: the noise class [[\d\s\W]] is the complement of [[A-Za-z_]]. *)
Lemma noise_class (c : N) :
  Char.isDigit c || Char.isSpace c || Char.isNonWord c
  = negb (Char.isLetter c).
Proof.
  unfold Char.isNonWord, Char.isWord.
  destruct (Char.isLetter c) eqn:El; cbn [negb orb].
  - assert (Char.isDigit c = false) as -> by (revert El; char_cases).
    assert (Char.isSpace c = false) as -> by (revert El; char_cases).
    reflexivity.
  - destruct (Char.isDigit c); cbn [negb orb]; [reflexivity|].
    now rewrite orb_true_r.
Qed.

(** ** Lists of code units *)

Lemma truthy_true (s : jsstring) : truthy s = true <-> s <> [].
Proof. destruct s; simpl; split; congruence. Qed.

Lemma truthy_false (s : jsstring) : truthy s = false <-> s = [].
Proof. destruct s; simpl; split; congruence. Qed.

Lemma takeWhile_dropWhile (p : N -> bool) (s : jsstring) :
  takeWhile p s ++ dropWhile p s = s.
Proof.
  induction s as [|c r IH]; simpl; [reflexivity|].
  destruct (p c); simpl; [now rewrite IH | reflexivity].
Qed.

Lemma dropWhile_skipn (p : N -> bool) (s : jsstring) :
  dropWhile p s = skipn (length (takeWhile p s)) s.
Proof.
  induction s as [|c r IH]; simpl; [reflexivity|].
  destruct (p c); simpl; [exact IH | reflexivity].
Qed.

Lemma takeWhile_length (p : N -> bool) (s : jsstring) :
  length (takeWhile p s) <= length s.
Proof.
  induction s as [|c r IH]; simpl; [lia|].
  destruct (p c); simpl; lia.
Qed.

Lemma dropWhile_length (p : N -> bool) (s : jsstring) :
  length (dropWhile p s) <= length s.
Proof.
  induction s as [|c r IH]; simpl; [lia|].
  destruct (p c); simpl; lia.
Qed.

Lemma dropWhile_first (p : N -> bool) (s : jsstring) :
  firstIs p (dropWhile p s) = false.
Proof.
  induction s as [|c r IH]; simpl; [reflexivity|].
  destruct (p c) eqn:E; [exact IH | simpl; exact E].
Qed.

Lemma dropWhile_id (p : N -> bool) (s : jsstring) :
  firstIs p s = false -> dropWhile p s = s.
Proof. destruct s as [|c r]; simpl; [reflexivity|]. now intros ->. Qed.

Lemma dropWhile_all (p : N -> bool) (s : jsstring) :
  forallb p s = true -> dropWhile p s = [].
Proof.
  induction s as [|c r IH]; simpl; [reflexivity|].
  intros H. apply andb_true_iff in H as [-> Hr]. auto.
Qed.

Lemma dropWhile_forallb (p q : N -> bool) (s : jsstring) :
  forallb q s = true -> forallb q (dropWhile p s) = true.
Proof.
  induction s as [|c r IH]; simpl; [reflexivity|].
  intros H. destruct (p c); [|exact H].
  apply andb_true_iff in H as [_ Hr]. auto.
Qed.

(** ** [trim] *)

(** [trimEnd] keeps the head of what it leaves. *)
Lemma trimEnd_cons (c : N) (r : jsstring) :
  trimEnd r <> [] -> trimEnd (c :: r) = c :: trimEnd r.
Proof. simpl. destruct (trimEnd r); congruence. Qed.

Lemma trimEnd_head (s : jsstring) (d : N) (t : jsstring) :
  trimEnd s = d :: t -> exists r, s = d :: r.
Proof.
  destruct s as [|c r]; simpl; [discriminate|].
  destruct (trimEnd r).
  - destruct (Char.isSpace c); [discriminate|].
    intros [= <- _]. now exists r.
  - intros [= <- _]. now exists r.
Qed.

Lemma trimEnd_first (p : N -> bool) (s : jsstring) :
  firstIs p s = false -> firstIs p (trimEnd s) = false.
Proof.
  intros H. destruct (trimEnd s) as [|d t] eqn:E; [reflexivity|].
  apply trimEnd_head in E as [r ->]. exact H.
Qed.

Lemma trimEnd_forallb (q : N -> bool) (s : jsstring) :
  forallb q s = true -> forallb q (trimEnd s) = true.
Proof.
  induction s as [|c r IH]; simpl; [reflexivity|].
  intros H. apply andb_true_iff in H as [Hc Hr].
  destruct (trimEnd r) as [|d t].
  - destruct (Char.isSpace c); simpl; [reflexivity | now rewrite Hc].
  - cbn [forallb]. rewrite Hc. exact (IH Hr).
Qed.

Lemma trimEnd_length (s : jsstring) : length (trimEnd s) <= length s.
Proof.
  induction s as [|c r IH]; simpl; [lia|].
  destruct (trimEnd r); [destruct (Char.isSpace c)|]; simpl in *; lia.
Qed.

Lemma trimEnd_idem (s : jsstring) : trimEnd (trimEnd s) = trimEnd s.
Proof.
  induction s as [|c r IH]; [reflexivity|].
  cbn [trimEnd]. destruct (trimEnd r) as [|d t] eqn:E.
  - destruct (Char.isSpace c) eqn:Ec; [reflexivity|].
    simpl. now rewrite Ec.
  - rewrite trimEnd_cons; rewrite IH; congruence.
Qed.

Lemma trim_all (s : jsstring) : forallb Char.isSpace s = true -> trim s = [].
Proof. intros H. unfold trim, trimStart. now rewrite dropWhile_all. Qed.

Lemma trim_forallb (q : N -> bool) (s : jsstring) :
  forallb q s = true -> forallb q (trim s) = true.
Proof. intros H. apply trimEnd_forallb, dropWhile_forallb, H. Qed.

Lemma trim_length (s : jsstring) : length (trim s) <= length s.
Proof.
  unfold trim, trimStart.
  pose proof (trimEnd_length (dropWhile Char.isSpace s)).
  pose proof (dropWhile_length Char.isSpace s). lia.
Qed.

Lemma trim_idem (s : jsstring) : trim (trim s) = trim s.
Proof.
  unfold trim, trimStart.
  rewrite (@dropWhile_id Char.isSpace (trimEnd _)).
  - apply trimEnd_idem.
  - apply trimEnd_first, dropWhile_first.
Qed.

(** ** Global replacement *)

Section ReplaceFacts.
Variable matcher : jsstring -> option nat.
Variable repl : jsstring.

(** Every unit of the result comes from the input or from [repl]. *)
Lemma replaceFrom_forallb (q : N -> bool) (s : jsstring) (k : nat) :
  forallb q repl = true -> forallb q s = true ->
  forallb q (replaceFrom matcher repl k s) = true.
Proof.
  intros Hrepl. revert k. induction s as [|c r IH]; intros k Hs.
  - simpl. destruct k; [destruct (matcher [])|]; auto.
  - cbn [forallb] in Hs. apply andb_true_iff in Hs as [Hc Hr].
    cbn [replaceFrom]. destruct k as [|k]; [|auto].
    destruct (matcher (c :: r)) as [[|n]|].
    + rewrite forallb_app, Hrepl. cbn [forallb]. rewrite Hc. simpl. auto.
    + rewrite forallb_app, Hrepl. simpl. auto.
    + cbn [forallb]. rewrite Hc. simpl. auto.
Qed.

(** Where the pattern matches nowhere, nothing is replaced. *)
Lemma replaceAll_id (s : jsstring) :
  matchesIn matcher s = false -> replaceAll matcher repl s = s.
Proof.
  unfold replaceAll. induction s as [|c r IH]; simpl.
  - now destruct (matcher []).
  - intros H. apply orb_false_iff in H as [Hm Hr].
    destruct (matcher (c :: r)); [discriminate|].
    now rewrite IH.
Qed.
End ReplaceFacts.

(** The scan resumes behind a match. *)
Lemma replaceFrom_skip (matcher : jsstring -> option nat) (repl s : jsstring)
    (k : nat) :
  k <= length s ->
  replaceFrom matcher repl k s = replaceAll matcher repl (skipn k s).
Proof.
  unfold replaceAll. revert k. induction s as [|c r IH]; intros k Hk.
  - simpl in Hk. now replace k with 0 by lia.
  - destruct k as [|k]; [reflexivity|].
    cbn [replaceFrom skipn]. apply IH. simpl in Hk. lia.
Qed.

Section ReplaceLength.
Variable matcher : jsstring -> option nat.
Variable repl : jsstring.
Hypothesis matcher_bound :
  forall t n, matcher t = Some n -> 1 <= n <= length t /\ length repl <= n.

Lemma replaceFrom_length (s : jsstring) (k : nat) :
  length (replaceFrom matcher repl k s) <= length s - k.
Proof.
  revert k. induction s as [|c r IH]; intros k.
  - simpl. destruct k; [|simpl; lia].
    destruct (matcher []) as [n|] eqn:E; [|simpl; lia].
    apply matcher_bound in E. simpl in E. lia.
  - cbn [replaceFrom]. destruct k as [|k]; [|apply IH].
    destruct (matcher (c :: r)) as [[|n]|] eqn:E.
    + apply matcher_bound in E. lia.
    + apply matcher_bound in E. cbn [length] in *.
      rewrite length_app. specialize (IH n). lia.
    + cbn [length]. specialize (IH 0). lia.
Qed.

Lemma replaceAll_length (s : jsstring) :
  length (replaceAll matcher repl s) <= length s.
Proof. unfold replaceAll. pose proof (replaceFrom_length s 0). lia. Qed.

(** A replacement shorter than every match shortens the text as soon
    as there is a match. *)
Lemma replaceAll_shrinks (s : jsstring) :
  (forall t n, matcher t = Some n -> length repl < n) ->
  matchesIn matcher s = true ->
  length (replaceAll matcher repl s) < length s.
Proof.
  intros Hlt. unfold replaceAll. induction s as [|c r IH]; intros Hm.
  - simpl in Hm. destruct (matcher []) as [n|] eqn:E; [|discriminate].
    apply matcher_bound in E. simpl in E. lia.
  - cbn [replaceFrom matchesIn] in *.
    destruct (matcher (c :: r)) as [[|n]|] eqn:E.
    + apply matcher_bound in E. lia.
    + pose proof (Hlt _ _ E). apply matcher_bound in E.
      cbn [length] in *. rewrite length_app.
      pose proof (replaceFrom_length r n). lia.
    + cbn [matched orb length] in *. specialize (IH Hm). lia.
Qed.
End ReplaceLength.

Lemma matchesIn_dropWhile (matcher : jsstring -> option nat) (p : N -> bool)
    (s : jsstring) :
  matchesIn matcher s = false -> matchesIn matcher (dropWhile p s) = false.
Proof.
  induction s as [|c r IH]; [auto|].
  cbn [dropWhile]. destruct (p c); [|auto].
  cbn [matchesIn]. intros H. apply orb_false_iff in H as [_ H]. auto.
Qed.

(** ** The three patterns of the normaliser *)

Lemma matchCRLF_bound (t : jsstring) (n : nat) :
  matchCRLF t = Some n -> 1 <= n <= length t /\ length [Char.LF] <= n.
Proof.
  destruct t as [|c [|d r]]; try discriminate. simpl.
  destruct (_ && _); [|discriminate]. intros [= <-]. lia.
Qed.

Lemma matchLF3_bound (t : jsstring) (n : nat) :
  matchLF3 t = Some n ->
  1 <= n <= length t /\ length [Char.LF; Char.LF] <= n.
Proof.
  unfold matchLF3.
  destruct (Nat.leb_spec 3 (length (takeWhile (N.eqb Char.LF) t)));
    [|discriminate].
  intros [= <-]. pose proof (takeWhile_length (N.eqb Char.LF) t).
  simpl. lia.
Qed.

Lemma matchBlanks_bound (t : jsstring) (n : nat) :
  matchBlanks t = Some n -> 1 <= n <= length t /\ length [Char.SP] <= n.
Proof.
  unfold matchBlanks.
  destruct (Nat.leb_spec 1 (length (takeWhile Char.isBlank t)));
    [|discriminate].
  intros [= <-]. pose proof (takeWhile_length Char.isBlank t).
  simpl. lia.
Qed.

(** [replaceCRLF], unfolded. *)
Lemma replaceCRLF_one (c : N) : replaceCRLF [c] = [c].
Proof. reflexivity. Qed.

Lemma replaceCRLF_cons (c d : N) (r : jsstring) :
  replaceCRLF (c :: d :: r) =
  if N.eqb c Char.CR && N.eqb d Char.LF
  then Char.LF :: replaceCRLF r
  else c :: replaceCRLF (d :: r).
Proof.
  unfold replaceCRLF, replaceAll. cbn [replaceFrom matchCRLF].
  now destruct (N.eqb c Char.CR && N.eqb d Char.LF).
Qed.

Lemma lfRun_cons (c : N) (r : jsstring) :
  lfRun (c :: r) = if N.eqb Char.LF c then S (lfRun r) else 0.
Proof. unfold lfRun. cbn [takeWhile]. now destruct (N.eqb Char.LF c). Qed.

(** [collapseLF], unfolded. *)
Lemma collapseLF_cons (c : N) (r : jsstring) :
  collapseLF (c :: r) =
  if 3 <=? lfRun (c :: r)
  then Char.LF :: Char.LF :: collapseLF (dropWhile (N.eqb Char.LF) (c :: r))
  else c :: collapseLF r.
Proof.
  unfold collapseLF at 1. unfold replaceAll. cbn [replaceFrom].
  unfold matchLF3. fold (lfRun (c :: r)).
  destruct (Nat.leb_spec 3 (lfRun (c :: r))) as [H|H]; [|reflexivity].
  rewrite dropWhile_skipn. fold (lfRun (c :: r)).
  destruct (lfRun (c :: r)) as [|n] eqn:E; [lia|].
  cbn [skipn app]. rewrite replaceFrom_skip; [reflexivity|].
  pose proof (takeWhile_length (N.eqb Char.LF) (c :: r)) as L.
  fold (lfRun (c :: r)) in L. rewrite E in L. simpl in L. lia.
Qed.

Lemma collapseBlanks_cons (c : N) (r : jsstring) :
  collapseBlanks (c :: r) =
  if Char.isBlank c
  then Char.SP :: collapseBlanks (dropWhile Char.isBlank r)
  else c :: collapseBlanks r.
Proof.
  unfold collapseBlanks at 1. unfold replaceAll. cbn [replaceFrom].
  unfold matchBlanks. cbn [takeWhile].
  destruct (Char.isBlank c); [|reflexivity].
  cbn [length Nat.leb app]. rewrite replaceFrom_skip.
  - now rewrite <- dropWhile_skipn.
  - apply takeWhile_length.
Qed.

Lemma hasLF3_nil : hasLF3 [] = false.
Proof. reflexivity. Qed.

Lemma hasLF3_cons (c : N) (r : jsstring) :
  hasLF3 (c :: r) = (3 <=? lfRun (c :: r)) || hasLF3 r.
Proof.
  unfold hasLF3. cbn [matchesIn]. unfold matchLF3. fold (lfRun (c :: r)).
  now destruct (3 <=? lfRun (c :: r)).
Qed.

(** Induction on the length of a string. *)
Lemma length_ind (P : jsstring -> Prop) :
  (forall s, (forall t, length t < length s -> P t) -> P s) ->
  forall s, P s.
Proof.
  intros H s. remember (length s) as n eqn:E. revert s E.
  induction n as [n IH] using lt_wf_ind. intros s ->.
  apply H. intros t Ht. exact (IH _ Ht t eq_refl).
Qed.

(** *** Line feeds *)

Lemma lfRun_first (s : jsstring) :
  firstIs (N.eqb Char.LF) s = false -> lfRun s = 0.
Proof.
  destruct s as [|c r]; [reflexivity|]. rewrite lfRun_cons. simpl.
  now intros ->.
Qed.

Lemma collapseLF_first (s : jsstring) :
  firstIs (N.eqb Char.LF) s = false ->
  firstIs (N.eqb Char.LF) (collapseLF s) = false.
Proof.
  intros H. destruct s as [|c r]; [reflexivity|].
  rewrite collapseLF_cons, (lfRun_first _ H). exact H.
Qed.

(** A run of line feeds is capped at two. *)
Lemma lfRun_collapseLF (s : jsstring) :
  lfRun (collapseLF s) = Nat.min 2 (lfRun s).
Proof.
  induction s as [|c r IH]; [reflexivity|].
  rewrite collapseLF_cons.
  destruct (Nat.leb_spec 3 (lfRun (c :: r))) as [H|H].
  - rewrite !lfRun_cons, !N.eqb_refl.
    rewrite (lfRun_first (collapseLF _)).
    + rewrite <- lfRun_cons. lia.
    + apply collapseLF_first, dropWhile_first.
  - rewrite !lfRun_cons in *. destruct (N.eqb Char.LF c); [|reflexivity].
    rewrite IH. lia.
Qed.

Lemma collapseLF_normal (s : jsstring) : hasLF3 (collapseLF s) = false.
Proof.
  induction s as [s IH] using length_ind.
  destruct s as [|c r]; [reflexivity|].
  pose proof (lfRun_collapseLF (c :: r)) as Hrun.
  rewrite collapseLF_cons in *.
  destruct (Nat.leb_spec 3 (lfRun (c :: r))) as [H|H].
  - set (s' := dropWhile (N.eqb Char.LF) (c :: r)) in *.
    assert (Hs' : length s' < length (c :: r)).
    { unfold s'. cbn [dropWhile]. rewrite lfRun_cons in H.
      destruct (N.eqb Char.LF c); [|lia].
      pose proof (dropWhile_length (N.eqb Char.LF) r). simpl. lia. }
    rewrite !hasLF3_cons, (IH s' Hs'), Hrun.
    rewrite (lfRun_cons Char.LF), N.eqb_refl, (lfRun_first (collapseLF s')).
    + rewrite orb_false_r. apply Nat.leb_gt. lia.
    + apply collapseLF_first, dropWhile_first.
  - rewrite hasLF3_cons, Hrun, IH by (simpl; lia).
    rewrite orb_false_r. apply Nat.leb_gt. lia.
Qed.

(** *** Spaces and tabs *)

Lemma collapseBlanks_first (q : N -> bool) (s : jsstring) :
  firstIs Char.isBlank s = false ->
  firstIs q (collapseBlanks s) = firstIs q s.
Proof.
  destruct s as [|c r]; [reflexivity|]. simpl. intros H.
  now rewrite collapseBlanks_cons, H.
Qed.

Lemma not_blank_first (s : jsstring) :
  firstIs Char.isBlank s = false ->
  firstIs (fun d => N.eqb d Char.SP) s = false.
Proof.
  destruct s as [|c r]; [reflexivity|]. simpl.
  unfold Char.isBlank. intros H. now apply orb_false_iff in H as [-> _].
Qed.

Lemma collapseBlanks_normal (s : jsstring) :
  blanksNormal (collapseBlanks s) = true.
Proof.
  induction s as [s IH] using length_ind.
  destruct s as [|c r]; [reflexivity|].
  rewrite collapseBlanks_cons.
  destruct (Char.isBlank c) eqn:Eb; cbn [blanksNormal].
  - rewrite collapseBlanks_first by apply dropWhile_first.
    rewrite not_blank_first by apply dropWhile_first.
    rewrite IH; [reflexivity|].
    pose proof (dropWhile_length Char.isBlank r). simpl. lia.
  - rewrite IH by (simpl; lia).
    unfold Char.isBlank in Eb. apply orb_false_iff in Eb as [-> ->].
    reflexivity.
Qed.

Lemma lfRun_collapseBlanks (s : jsstring) :
  lfRun (collapseBlanks s) = lfRun s.
Proof.
  induction s as [|c r IH]; [reflexivity|].
  rewrite collapseBlanks_cons. destruct (Char.isBlank c) eqn:Eb.
  - rewrite !lfRun_cons.
    replace (N.eqb Char.LF c) with false by (revert Eb; char_cases).
    reflexivity.
  - rewrite !lfRun_cons, IH. reflexivity.
Qed.

Lemma collapseBlanks_hasLF3 (s : jsstring) :
  hasLF3 s = false -> hasLF3 (collapseBlanks s) = false.
Proof.
  induction s as [s IH] using length_ind.
  destruct s as [|c r]; [reflexivity|]. intros H.
  pose proof (lfRun_collapseBlanks (c :: r)) as Hrun.
  rewrite hasLF3_cons in H. apply orb_false_iff in H as [H3 Hr].
  rewrite collapseBlanks_cons in *. destruct (Char.isBlank c).
  - rewrite hasLF3_cons, Hrun, H3. apply IH.
    + pose proof (dropWhile_length Char.isBlank r). simpl. lia.
    + apply matchesIn_dropWhile, Hr.
  - rewrite hasLF3_cons, Hrun, H3. apply IH; [simpl; lia | exact Hr].
Qed.

Lemma blanksNormal_first (s : jsstring) :
  blanksNormal s = true ->
  firstIs (fun d => N.eqb d Char.SP) s = false ->
  firstIs Char.isBlank s = false.
Proof.
  destruct s as [|c r]; [reflexivity|]. simpl. unfold Char.isBlank.
  intros H ->. apply andb_true_iff in H as [H _].
  apply andb_true_iff in H as [H _]. now apply negb_true_iff in H as ->.
Qed.

Lemma blanksNormal_id (s : jsstring) :
  blanksNormal s = true -> collapseBlanks s = s.
Proof.
  induction s as [|c r IH]; [reflexivity|]. cbn [blanksNormal].
  intros H. apply andb_true_iff in H as [H Hr].
  apply andb_true_iff in H as [Htab Hsp].
  apply negb_true_iff in Htab, Hsp.
  rewrite collapseBlanks_cons. unfold Char.isBlank at 1. rewrite Htab, orb_false_r.
  destruct (N.eqb_spec c Char.SP) as [->|]; [|now rewrite IH].
  cbn [andb] in Hsp.
  rewrite dropWhile_id by now apply blanksNormal_first.
  now rewrite IH.
Qed.

Lemma blanksNormal_dropWhile (p : N -> bool) (s : jsstring) :
  blanksNormal s = true -> blanksNormal (dropWhile p s) = true.
Proof.
  induction s as [|c r IH]; [auto|]. cbn [dropWhile].
  destruct (p c); [|auto]. cbn [blanksNormal].
  intros H. apply andb_true_iff in H as [_ H]. auto.
Qed.

(** *** [trim] keeps the normal forms *)

Lemma lfRun_trimEnd (s : jsstring) : lfRun (trimEnd s) <= lfRun s.
Proof.
  induction s as [|c r IH]; [reflexivity|].
  cbn [trimEnd]. destruct (trimEnd r) as [|d t] eqn:E.
  - destruct (Char.isSpace c); rewrite ?lfRun_cons;
      change (lfRun []) with 0; destruct (N.eqb Char.LF c); lia.
  - rewrite !(lfRun_cons c). destruct (N.eqb Char.LF c); lia.
Qed.

Lemma hasLF3_trimEnd (s : jsstring) :
  hasLF3 s = false -> hasLF3 (trimEnd s) = false.
Proof.
  induction s as [|c r IH]; [auto|]. intros H.
  pose proof (lfRun_trimEnd (c :: r)) as Hrun.
  rewrite hasLF3_cons in H. apply orb_false_iff in H as [H3 Hr].
  apply Nat.leb_gt in H3.
  cbn [trimEnd] in *. destruct (trimEnd r) as [|d t] eqn:E.
  - destruct (Char.isSpace c); [reflexivity|].
    rewrite hasLF3_cons, hasLF3_nil, orb_false_r. apply Nat.leb_gt. lia.
  - rewrite hasLF3_cons, (IH Hr), orb_false_r. apply Nat.leb_gt. lia.
Qed.

Lemma blanksNormal_trimEnd (s : jsstring) :
  blanksNormal s = true -> blanksNormal (trimEnd s) = true.
Proof.
  induction s as [|c r IH]; [auto|]. cbn [blanksNormal]. intros H.
  apply andb_true_iff in H as [H Hr]. apply andb_true_iff in H as [Htab Hsp].
  cbn [trimEnd]. destruct (trimEnd r) as [|d t] eqn:E.
  - destruct (Char.isSpace c); [reflexivity|].
    cbn [blanksNormal firstIs]. now rewrite Htab, andb_false_r.
  - specialize (IH Hr). apply trimEnd_head in E as [r' ->].
    change (negb (N.eqb c Char.TAB)
            && negb (N.eqb c Char.SP
                     && firstIs (fun d => N.eqb d Char.SP) (d :: t))
            && blanksNormal (d :: t) = true).
    rewrite Htab, IH. cbn [firstIs] in *. now rewrite Hsp.
Qed.

(** *** Carriage returns *)

Lemma notCR_not_In (s : jsstring) :
  forallb notCR s = true <-> ~ In Char.CR s.
Proof.
  rewrite forallb_forall. unfold notCR. split.
  - intros H Hin. specialize (H _ Hin). now rewrite N.eqb_refl in H.
  - intros H c Hc. apply negb_true_iff. apply N.eqb_neq. congruence.
Qed.

Lemma notCR_hasCRLF (s : jsstring) :
  forallb notCR s = true -> hasCRLF s = false.
Proof.
  unfold hasCRLF. induction s as [|c r IH]; [reflexivity|].
  cbn [forallb matchesIn]. intros H. apply andb_true_iff in H as [Hc Hr].
  rewrite (IH Hr), orb_false_r. unfold notCR in Hc.
  apply negb_true_iff in Hc. destruct r; simpl; [reflexivity|].
  now rewrite Hc.
Qed.

Lemma normalize_forallb (q : N -> bool) (text : jsstring) :
  q Char.LF = true -> q Char.SP = true ->
  forallb q (replaceCRLF text) = true ->
  forallb q (normalize text) = true.
Proof.
  intros Hlf Hsp H. unfold normalize. apply trim_forallb.
  unfold collapseBlanks, collapseLF, replaceAll.
  apply replaceFrom_forallb; [simpl; now rewrite Hsp|].
  apply replaceFrom_forallb; [simpl; now rewrite Hlf|]. exact H.
Qed.

(** Where every carriage return opens a CRLF pair, none is left. *)
Lemma replaceCRLF_notCR (s : jsstring) :
  crOnlyInCRLF s = true -> forallb notCR (replaceCRLF s) = true.
Proof.
  induction s as [s IH] using length_ind.
  destruct s as [|c [|d r]]; [reflexivity| |].
  - rewrite replaceCRLF_one. simpl. unfold notCR.
    now rewrite orb_false_r, !andb_true_r.
  - rewrite replaceCRLF_cons. cbn [crOnlyInCRLF firstIs].
    intros H. apply andb_true_iff in H as [Hc H].
    destruct (N.eqb c Char.CR) eqn:Ec; cbn [negb orb andb] in *.
    + rewrite Hc. cbn [forallb]. apply andb_true_iff in H as [_ Hr].
      rewrite IH; [reflexivity | simpl; lia | exact Hr].
    + cbn [forallb]. unfold notCR at 1. rewrite Ec. cbn [negb andb].
      apply IH; [simpl; lia | exact H].
Qed.

(** ** C6 and C7: the normaliser *)

Lemma hasLF3_normalize (text : jsstring) : hasLF3 (normalize text) = false.
Proof.
  unfold normalize, trim, trimStart.
  apply hasLF3_trimEnd, matchesIn_dropWhile, collapseBlanks_hasLF3,
    collapseLF_normal.
Qed.

Lemma blanksNormal_normalize (text : jsstring) :
  blanksNormal (normalize text) = true.
Proof.
  unfold normalize, trim, trimStart.
  apply blanksNormal_trimEnd, blanksNormal_dropWhile, collapseBlanks_normal.
Qed.

Lemma normalize_length (text : jsstring) :
  length (normalize text) <= length (replaceCRLF text).
Proof.
  unfold normalize.
  pose proof (trim_length (collapseBlanks (collapseLF (replaceCRLF text)))).
  pose proof (@replaceAll_length _ _ matchBlanks_bound (collapseLF (replaceCRLF text))).
  pose proof (@replaceAll_length _ _ matchLF3_bound (replaceCRLF text)).
  unfold collapseBlanks, collapseLF in *. lia.
Qed.

Lemma replaceCRLF_shrinks (s : jsstring) :
  hasCRLF s = true -> length (replaceCRLF s) < length s.
Proof.
  apply (@replaceAll_shrinks _ _ matchCRLF_bound).
  intros t n H. destruct (matchCRLF_bound _ H) as [_ Hn].
  destruct t as [|c [|d r]]; try discriminate. simpl in H.
  destruct (_ && _); [|discriminate]. injection H as <-. simpl. lia.
Qed.

(** C6, as the specification states it, does not hold: a carriage return
    that no line feed follows stays in the normalised text. *)
Lemma normalize_keeps_lone_CR :
  normalize Sample.loneCR = Sample.loneCR
  /\ In Char.CR (normalize Sample.loneCR).
Proof. split; [vm_compute; reflexivity | vm_compute; auto]. Qed.

(** C6, amended: the normaliser turns the CRLF pairs into line feeds and
    leaves the other carriage returns alone.  For every input in which
    each carriage return is immediately followed by a line feed (line
    endings CRLF or LF), the normalised text contains no carriage
    return. *)
Theorem normalize_no_CR (text : jsstring) :
  crOnlyInCRLF text = true -> ~ In Char.CR (normalize text).
Proof.
  intros H. apply notCR_not_In, normalize_forallb; try reflexivity.
  apply replaceCRLF_notCR, H.
Qed.

Lemma normalize_no_CR_witness :
  ~ In Char.CR (normalize (js "a" ++ [Char.CR; Char.LF] ++ js "b")).
Proof. apply normalize_no_CR. reflexivity. Defined.

(** C7, as the specification states it, does not hold: normalising
    ["a\r\r\nb"] gives ["a\r\nb"], and normalising that gives ["a\nb"]. *)
Lemma normalize_not_idempotent :
  normalize Sample.doubleCR = js "a" ++ [Char.CR; Char.LF] ++ js "b"
  /\ normalize (normalize Sample.doubleCR) = js "a" ++ [Char.LF] ++ js "b"
  /\ normalize (normalize Sample.doubleCR) <> normalize Sample.doubleCR.
Proof. repeat split; vm_compute; [reflexivity..|discriminate]. Qed.

(** C7, amended: normalising a normalised text returns it unchanged
    exactly when that text holds no carriage return immediately followed
    by a line feed; in particular [normalize (normalize x) = normalize x]
    for every [x] without a carriage return. *)
Theorem normalize_idempotent_iff (x : jsstring) :
  (normalize (normalize x) = normalize x <-> hasCRLF (normalize x) = false)
  /\ (forallb notCR x = true -> normalize (normalize x) = normalize x).
Proof.
  assert (Hid : hasCRLF (normalize x) = false ->
                normalize (normalize x) = normalize x).
  { intros H. unfold normalize at 1.
    unfold replaceCRLF. rewrite (@replaceAll_id _ _ _ H).
    unfold collapseLF. rewrite (@replaceAll_id _ _ _ (hasLF3_normalize x)).
    rewrite (@blanksNormal_id _ (blanksNormal_normalize x)).
    unfold normalize. apply trim_idem. }
  split; [split; [|exact Hid]|].
  - intros E. destruct (hasCRLF (normalize x)) eqn:H; [|reflexivity].
    apply replaceCRLF_shrinks in H.
    pose proof (normalize_length (normalize x)) as L.
    rewrite E in L. lia.
  - intros H. apply Hid, notCR_hasCRLF, normalize_forallb; try reflexivity.
    unfold replaceCRLF, replaceAll. now apply replaceFrom_forallb.
Qed.

Lemma normalize_idempotent_iff_witness :
  normalize (normalize Sample.numbered) = normalize Sample.numbered.
Proof.
  apply (proj2 (normalize_idempotent_iff Sample.numbered)). reflexivity.
Defined.

(** ** C3: totality *)

Lemma normalize_all_space (text : jsstring) :
  forallb Char.isSpace text = true -> normalize text = [].
Proof.
  intros H. unfold normalize. apply trim_all.
  unfold collapseBlanks, collapseLF, replaceCRLF, replaceAll.
  repeat (apply replaceFrom_forallb; [reflexivity|]). exact H.
Qed.

(** C3: [detectParagraphs] is total: on every string it returns a list
    of paragraphs and raises no [TypeError]; on the empty string and on
    every string of whitespace only it returns the empty list. *)
Theorem detectParagraphs_total (text : jsstring) :
  (exists ps, detectParagraphs text = Ok ps)
  /\ (forallb Char.isSpace text = true -> detectParagraphs text = Ok []).
Proof.
  split.
  - rewrite detectParagraphs_ok. eauto.
  - intros H. rewrite detectParagraphs_ok, (normalize_all_space _ H).
    reflexivity.
Qed.

Lemma detectParagraphs_total_witness :
  detectParagraphs [] = Ok []
  /\ detectParagraphs ([Char.SP; Char.TAB; Char.CR; Char.LF; Char.SP]) = Ok [].
Proof.
  split.
  - apply (proj2 (detectParagraphs_total [])). reflexivity.
  - apply (proj2 (detectParagraphs_total _)). reflexivity.
Defined.

(** ** The post-filter *)

Lemma keep_true (p : jsstring) :
  keep p = true <->
  10 <= length p /\ isNoise p = false /\ hasRepeat p = false.
Proof.
  unfold keep. destruct (Nat.ltb_spec (length p) 10).
  - split; [discriminate | lia].
  - destruct (isNoise p); [split; [discriminate | intros (_ & ? & _); discriminate]|].
    destruct (hasRepeat p); split; try discriminate; auto.
    intros (_ & _ & ?); discriminate.
Qed.

Lemma keep_false (p : jsstring) :
  keep p = false <->
  length p < 10 \/ isNoise p = true \/ hasRepeat p = true.
Proof.
  unfold keep. destruct (Nat.ltb_spec (length p) 10).
  - split; auto.
  - destruct (isNoise p); [split; auto|].
    destruct (hasRepeat p); [split; auto|].
    split; [discriminate|]. intros [?|[?|?]]; [lia | discriminate..].
Qed.

Lemma forallb_false (f : N -> bool) (p : jsstring) :
  forallb f p = false -> exists c, In c p /\ f c = false.
Proof.
  induction p as [|c r IH]; simpl; [discriminate|].
  destruct (f c) eqn:E; simpl.
  - intros H. destruct (IH H) as (d & Hd & Hf). eauto.
  - intros _. eauto.
Qed.

Lemma isNoise_onlyNoise (p : jsstring) : isNoise p = true <-> onlyNoise p.
Proof.
  unfold isNoise, onlyNoise. rewrite andb_true_iff, truthy_true.
  rewrite forallb_forall, Forall_forall.
  split; intros [Hne H]; (split; [exact Hne|]); intros c Hc;
    specialize (H c Hc).
  - apply orb_true_iff in H as [H|H]; [apply orb_true_iff in H as [H|H]|]; auto.
  - destruct H as [ -> | [ -> | -> ] ]; rewrite ?orb_true_r; reflexivity.
Qed.

(** A paragraph that is not noise holds a letter or an underscore. *)
Lemma not_noise_letter (p : jsstring) :
  p <> [] -> isNoise p = false ->
  exists c, In c p /\ Char.isLetter c = true.
Proof.
  intros Hne H. unfold isNoise in H.
  apply truthy_true in Hne. rewrite Hne in H. cbn [andb] in H.
  apply forallb_false in H as (c & Hc & Hf).
  rewrite noise_class in Hf. exists c. split; [exact Hc|].
  now destruct (Char.isLetter c).
Qed.

Lemma takeWhile_eq_repeat (c : N) (s : jsstring) :
  takeWhile (N.eqb c) s = repeat c (length (takeWhile (N.eqb c) s)).
Proof.
  induction s as [|d r IH]; simpl; [reflexivity|].
  destruct (N.eqb_spec c d) as [<-|]; simpl; [now rewrite <- IH | reflexivity].
Qed.

Lemma takeWhile_repeat_app (c : N) (n : nat) (post : jsstring) :
  n <= length (takeWhile (N.eqb c) (repeat c n ++ post)).
Proof.
  induction n as [|n IH]; simpl; [lia|].
  rewrite N.eqb_refl. simpl. lia.
Qed.

(** [hasRepeat] finds the runs of eleven equal units that [.] matches. *)
Lemma hasRepeat_run (p : jsstring) :
  hasRepeat p = true <->
  exists c, Char.isLineTerminator c = false /\ hasRunOf c 11 p.
Proof.
  split.
  - induction p as [|c r IH]; [discriminate|].
    cbn [hasRepeat]. intros H. apply orb_true_iff in H as [H|H].
    + apply andb_true_iff in H as [Hlt Hn].
      apply negb_true_iff in Hlt. apply Nat.leb_le in Hn.
      exists c. split; [exact Hlt|].
      set (n := length (takeWhile (N.eqb c) r)) in *.
      assert (Hr : r = repeat c 10 ++ repeat c (n - 10) ++ dropWhile (N.eqb c) r).
      { rewrite app_assoc, <- repeat_app.
        replace (10 + (n - 10)) with n by lia.
        unfold n. rewrite <- takeWhile_eq_repeat.
        symmetry. apply takeWhile_dropWhile. }
      exists [], (repeat c (n - 10) ++ dropWhile (N.eqb c) r).
      change (c :: r
              = c :: (repeat c 10 ++ repeat c (n - 10) ++ dropWhile (N.eqb c) r)).
      f_equal. exact Hr.
    + destruct (IH H) as (d & Hd & pre & post & ->).
      exists d. split; [exact Hd|]. now exists (c :: pre), post.
  - intros (c & Hlt & pre & post & ->).
    induction pre as [|d pre IH].
    + change (hasRepeat (c :: repeat c 10 ++ post) = true).
      cbn [hasRepeat]. rewrite Hlt. cbn [negb andb].
      pose proof (takeWhile_repeat_app c 10 post) as Hn.
      apply Nat.leb_le in Hn. now rewrite Hn.
    + cbn [app hasRepeat]. rewrite IH. apply orb_true_r.
Qed.

(** C5, as the specification states it, does not hold: a trimmed
    paragraph with a run of eleven carriage returns is kept, and is indeed
    returned by the segmenter. *)
Lemma keep_run_of_CR :
  trim Sample.crRun = Sample.crRun
  /\ hasRunOf Char.CR 11 Sample.crRun
  /\ keep Sample.crRun = true
  /\ detectParagraphs Sample.crRun = Ok [Sample.crRun].
Proof.
  repeat split; try (vm_compute; reflexivity).
  exists (js "abcdefghij"), (js "k"). reflexivity.
Qed.

(** C5, amended: the post-filter drops a paragraph if and only if its
    length is under 10 code units, or it consists entirely of digits,
    whitespace and non-word symbols, or it contains a run of 11 or more
    copies of one code unit other than a line terminator (LF, CR, U+2028,
    U+2029).  ["42"] and sixteen dashes are dropped and ["This is a valid
    paragraph with enough length."] is kept. *)
Theorem keep_spec :
  (forall p : jsstring,
      keep p = false <->
      length p < 10 \/ onlyNoise p
      \/ exists c, Char.isLineTerminator c = false /\ hasRunOf c 11 p)
  /\ postFilter [js "42"] = []
  /\ postFilter [js "----------------"] = []
  /\ postFilter [js "This is a valid paragraph with enough length."]
     = [js "This is a valid paragraph with enough length."].
Proof.
  split; [|repeat split; vm_compute; reflexivity].
  intros p. rewrite keep_false, isNoise_onlyNoise, hasRepeat_run. reflexivity.
Qed.

Lemma postFilter_In (ps : list jsstring) (p : jsstring) :
  In p (postFilter ps) <-> (exists q, In q ps /\ p = trim q) /\ keep p = true.
Proof.
  unfold postFilter. rewrite filter_In, in_map_iff.
  split; intros [(q & H1 & H2) Hk]; (split; [|exact Hk]); exists q; auto.
Qed.

(** C9: every paragraph that [detectParagraphs] returns is non-empty,
    equal to its own trim and at least 10 code units long. *)
Theorem emitted_trimmed_long
    (text : jsstring) (ps : list jsstring) (p : jsstring) :
  detectParagraphs text = Ok ps -> In p ps ->
  p <> [] /\ trim p = p /\ 10 <= length p.
Proof.
  rewrite detectParagraphs_ok. intros [= <-] Hin.
  apply postFilter_In in Hin as [(q & _ & ->) Hk].
  apply keep_true in Hk as (Hlen & _).
  repeat split; [|apply trim_idem|exact Hlen].
  intros E. rewrite E in Hlen. simpl in Hlen. lia.
Qed.

Lemma emitted_trimmed_long_witness :
  js "Intro text." <> [] /\ trim (js "Intro text.") = js "Intro text."
  /\ 10 <= length (js "Intro text.").
Proof.
  apply (@emitted_trimmed_long Sample.numbered
           [js "Intro text."; js "1. First item"; js "2. Second item"]).
  - vm_compute. reflexivity.
  - simpl. auto.
Defined.

(** C10: every paragraph that [detectParagraphs] returns contains an
    ASCII letter or an underscore; a paragraph without any (all of its
    code units being digits, whitespace, punctuation or CJK, which the
    class [[\d\s\W]] covers) is never returned, however long it is.  A
    text of fifteen Han characters yields no paragraph. *)
Theorem emitted_has_letter (text : jsstring) (ps : list jsstring) :
  detectParagraphs text = Ok ps ->
  (forall p, In p ps -> exists c, In c p /\ Char.isLetter c = true)
  /\ (forall p, forallb (fun c => negb (Char.isLetter c)) p = true ->
                ~ In p ps)
  /\ detectParagraphs Sample.han = Ok [].
Proof.
  rewrite detectParagraphs_ok. intros [= <-].
  assert (H : forall p,
             In p (postFilter (pushCurrent
                    (groupFrom None (split (normalize text)) (State [] [])))) ->
             exists c, In c p /\ Char.isLetter c = true).
  { intros p Hin. apply postFilter_In in Hin as [_ Hk].
    apply keep_true in Hk as (Hlen & Hn & _).
    apply not_noise_letter; [|exact Hn].
    intros E. rewrite E in Hlen. simpl in Hlen. lia. }
  split; [exact H|]. split; [|vm_compute; reflexivity].
  intros p Hall Hin. destruct (H p Hin) as (c & Hc & Hl).
  rewrite forallb_forall in Hall. specialize (Hall c Hc).
  rewrite Hl in Hall. discriminate.
Qed.

Lemma emitted_has_letter_witness :
  exists c, In c (js "1. First item") /\ Char.isLetter c = true.
Proof.
  apply (proj1 (@emitted_has_letter Sample.numbered
           [js "Intro text."; js "1. First item"; js "2. Second item"]
           ltac:(vm_compute; reflexivity))).
  simpl. auto.
Defined.

(** ** C4: order *)

Lemma joinSP_snoc (b : list jsstring) (l : jsstring) :
  b <> [] -> joinSP (b ++ [l]) = joinSP b ++ [Char.SP] ++ l.
Proof.
  induction b as [|x t IH]; [congruence|]. intros _.
  destruct t as [|y t]; [reflexivity|].
  change (x ++ [Char.SP] ++ joinSP ((y :: t) ++ [l])
          = (x ++ [Char.SP] ++ joinSP (y :: t)) ++ [Char.SP] ++ l).
  rewrite IH by discriminate. now rewrite <- !app_assoc.
Qed.

Lemma joinSP_empty (b : list jsstring) :
  Forall (fun l => truthy l = true) b -> joinSP b = [] -> b = [].
Proof.
  destruct b as [|x t]; [reflexivity|].
  intros H. inversion H as [|? ? Hx _]; subst.
  destruct x; [discriminate|]. simpl. destruct t; discriminate.
Qed.

Lemma Grouped_flush (st : state) (blocks : list (list jsstring))
    (cb : list jsstring) :
  Grouped st blocks cb -> truthy (currentParagraph st) = true ->
  paragraphs st ++ [currentParagraph st] = map joinSP (blocks ++ [cb])
  /\ Forall (fun b => b <> []) (blocks ++ [cb]).
Proof.
  intros (Hp & Hc & Hb & _) Ht. split.
  - now rewrite map_app, Hp, Hc.
  - apply Forall_app. split; [exact Hb|].
    constructor; [|constructor].
    intros ->. rewrite Hc in Ht. discriminate.
Qed.

Lemma Grouped_idle (st : state) (blocks : list (list jsstring))
    (cb : list jsstring) :
  Grouped st blocks cb -> truthy (currentParagraph st) = false -> cb = [].
Proof.
  intros (_ & Hc & _ & Hl) Ht. apply truthy_false in Ht.
  apply joinSP_empty; congruence.
Qed.

(** One turn adds the line, if it is not blank, behind the lines grouped
    so far. *)
Lemma bodyOn_Grouped (prev next : option jsstring) (raw : jsstring)
    (st : state) (blocks : list (list jsstring)) (cb : list jsstring) :
  Grouped st blocks cb ->
  exists blocks' cb',
    Grouped (bodyOn prev next raw st) blocks' cb'
    /\ concat blocks' ++ cb' = (concat blocks ++ cb) ++ filter truthy [trim raw].
Proof.
  intros G. pose proof G as (Hp & Hc & Hb & Hl).
  unfold bodyOn. cbn [filter].
  destruct (truthy (trim raw)) eqn:Eline; cbn [negb].
  - assert (Hflush : truthy (currentParagraph st) = true ->
      exists blocks' cb',
        Grouped (State (paragraphs st ++ [currentParagraph st]) (trim raw))
          blocks' cb'
        /\ concat blocks' ++ cb' = (concat blocks ++ cb) ++ [trim raw]).
    { intros Ht. destruct (Grouped_flush G Ht) as [E F].
      exists (blocks ++ [cb]), [trim raw]. split.
      - repeat split; auto.
      - rewrite concat_app. simpl. now rewrite app_nil_r. }
    assert (Hfresh : truthy (currentParagraph st) = false ->
      exists blocks' cb',
        Grouped (State (paragraphs st) (trim raw)) blocks' cb'
        /\ concat blocks' ++ cb' = (concat blocks ++ cb) ++ [trim raw]).
    { intros Ht. rewrite (Grouped_idle G Ht).
      exists blocks, [trim raw]. split.
      - repeat split; auto.
      - now rewrite app_nil_r. }
    destruct (startOn prev (currentParagraph st) (trim raw)
              && truthy (currentParagraph st)) eqn:Estart.
    + apply andb_true_iff in Estart as [_ Ht]. auto.
    + destruct (contOn next (trim raw)).
      * exists blocks, (cb ++ [trim raw]). split.
        -- repeat split; auto; cbn [paragraphs currentParagraph].
           ++ destruct (truthy (currentParagraph st)) eqn:Ht.
              ** rewrite joinSP_snoc, Hc; [reflexivity|].
                 intros ->. rewrite Hc in Ht. discriminate.
              ** now rewrite (Grouped_idle G Ht).
           ++ apply Forall_app. auto.
        -- now rewrite app_assoc.
      * unfold pushCurrent.
        destruct (truthy (currentParagraph st)) eqn:Ht; auto.
  - rewrite app_nil_r.
    destruct (truthy (currentParagraph st)) eqn:Ht.
    + destruct (Grouped_flush G Ht) as [E F].
      exists (blocks ++ [cb]), []. split.
      * repeat split; auto.
      * rewrite concat_app. simpl. now rewrite !app_nil_r.
    + now exists blocks, cb.
Qed.

Lemma groupFrom_Grouped (ls : list jsstring) (prev : option jsstring)
    (st : state) (blocks : list (list jsstring)) (cb : list jsstring) :
  Grouped st blocks cb ->
  exists blocks' cb',
    Grouped (groupFrom prev ls st) blocks' cb'
    /\ concat blocks' ++ cb'
       = (concat blocks ++ cb) ++ filter truthy (map trim ls).
Proof.
  revert prev st blocks cb.
  induction ls as [|raw rest IH]; intros prev st blocks cb G.
  - exists blocks, cb. split; [exact G|]. simpl. now rewrite app_nil_r.
  - destruct (bodyOn_Grouped prev (hd_error rest) raw G)
      as (b1 & c1 & G1 & E1).
    destruct (IH (Some raw) _ _ _ G1) as (b2 & c2 & G2 & E2).
    exists b2, c2. split; [exact G2|].
    rewrite E2, E1, <- app_assoc. f_equal.
    cbn [map filter]. now destruct (truthy (trim raw)).
Qed.

(** The paragraphs before the post-filter are the non-blank trimmed
    lines, cut into consecutive non-empty blocks and joined by spaces. *)
Lemma pushCurrent_blocks (lines : list jsstring) :
  exists blocks,
    concat blocks = filter truthy (map trim lines)
    /\ Forall (fun b => b <> []) blocks
    /\ pushCurrent (groupFrom None lines (State [] [])) = map joinSP blocks.
Proof.
  destruct (@groupFrom_Grouped lines None (State [] []) [] [])
    as (blocks & cb & G & E).
  { repeat split; constructor. }
  simpl in E. unfold pushCurrent.
  destruct (truthy (currentParagraph (groupFrom None lines (State [] [])))) eqn:Ht.
  - destruct (Grouped_flush G Ht) as [E1 F1].
    exists (blocks ++ [cb]). repeat split; auto.
    rewrite concat_app. simpl. now rewrite app_nil_r.
  - rewrite (Grouped_idle G Ht), app_nil_r in E.
    destruct G as (Hp & _ & Hb & _). now exists blocks.
Qed.

Lemma Subseq_filter {A : Type} (f : A -> bool) (l : list A) :
  Subseq (filter f l) l.
Proof.
  induction l as [|x l IH]; simpl; [constructor|].
  destruct (f x); now constructor.
Qed.

(** C4: the paragraphs before the post-filter are the non-blank lines of
    the normalised text in their order, cut into consecutive non-empty
    blocks, each block joined by single spaces; the result of
    [detectParagraphs] is a subsequence of these paragraphs, trimmed:
    whole paragraphs are dropped or kept, and none is split, merged or
    moved. *)
Theorem paragraphs_in_order (text : jsstring) :
  exists blocks : list (list jsstring),
    concat blocks = filter truthy (map trim (split (normalize text)))
    /\ Forall (fun b => b <> []) blocks
    /\ groupLines (normalize text) = Ok (map joinSP blocks)
    /\ exists ps,
         detectParagraphs text = Ok ps
         /\ ps = filter keep (map trim (map joinSP blocks))
         /\ Subseq ps (map trim (map joinSP blocks)).
Proof.
  destruct (pushCurrent_blocks (split (normalize text)))
    as (blocks & Hc & Hb & Hp).
  exists blocks. repeat split; auto.
  - now rewrite groupLines_ok, Hp.
  - eexists. split; [|split; [reflexivity|]].
    + now rewrite detectParagraphs_ok, Hp.
    + apply Subseq_filter.
Qed.

(** ** The worked examples of the specification *)

(** The patterns on small inputs. *)
Example isStructural_heading :
  isStructural [Char.DI; 19968; 21313; 31456; 32]%N = true
  /\ isStructural [Char.DI; 31456]%N = false
  /\ isStructural (js "12. item") = true
  /\ isStructural [49; 50; 12289]%N = true
  /\ isStructural (js "12 items") = false.
Proof. repeat split. Qed.

Example normalize_sample :
  normalize (js "  a" ++ [Char.CR; Char.LF] ++ js "b " ++ [Char.TAB]
             ++ js " c" ++ [Char.LF; Char.LF; Char.LF; Char.LF]
             ++ js "d" ++ [Char.LF])
  = js "a" ++ [Char.LF] ++ js "b c" ++ [Char.LF; Char.LF] ++ js "d".
Proof. reflexivity. Qed.

(** A line without a closing mark that is not the last one is joined to
    what precedes it. *)
Example continuation_joined :
  detectParagraphs
    (js "This is a long line that continues" ++ [Char.LF]
     ++ js "onto the next line without punctuation" ++ [Char.LF]
     ++ js "The end of it.")
  = Ok [js "This is a long line that continues onto the next line without punctuation";
        js "The end of it."].
Proof. vm_compute. reflexivity. Qed.

(** C1, as the specification states it, does not hold: the two wrapped
    lines are not returned as one paragraph joined by a space. *)
Lemma wrapped_not_joined :
  detectParagraphs Sample.wrapped
  <> Ok [Sample.wrapped1 ++ [Char.SP] ++ Sample.wrapped2].
Proof. vm_compute. discriminate. Qed.

(** C1, amended: for the two-line text whose second line ends in a full
    stop, [detectParagraphs] returns exactly two paragraphs, the two
    lines unchanged and in their order.  The second line is the last one
    and ends in a sentence terminator, so it is no continuation: the
    accumulated first line is flushed before it. *)
Theorem wrapped_two_paragraphs :
  detectParagraphs Sample.wrapped = Ok [Sample.wrapped1; Sample.wrapped2].
Proof. vm_compute. reflexivity. Qed.

(** C2, as the specification states it, does not hold: the result for
    ["A.\n\nB."] is not the two paragraphs ["A."] and ["B."]. *)
Lemma blankLine_not_two :
  detectParagraphs Sample.blankLine <> Ok [js "A."; js "B."].
Proof. vm_compute. discriminate. Qed.

(** C2, amended: for ["A.\n\nB."] the line grouping yields exactly the two
    paragraphs ["A."] and ["B."], split at the blank line; the post-filter
    then drops both, each being shorter than ten code units, and
    [detectParagraphs] returns the empty list. *)
Theorem blankLine_grouped_then_dropped :
  groupLines (normalize Sample.blankLine) = Ok [js "A."; js "B."]
  /\ detectParagraphs Sample.blankLine = Ok [].
Proof. split; vm_compute; reflexivity. Qed.

(** C8: for ["Intro text.\n1. First item\n2. Second item"],
    [detectParagraphs] returns exactly three paragraphs, split before each
    numbered item. *)
Theorem numbered_three_paragraphs :
  detectParagraphs Sample.numbered
  = Ok [js "Intro text."; js "1. First item"; js "2. Second item"].
Proof. vm_compute. reflexivity. Qed.

(** * Further properties of the segmenter *)

(** ** The normal form *)

Lemma lastIs_snoc (p : N -> bool) (s : jsstring) (c : N) :
  lastIs p (s ++ [c]) = p c.
Proof. unfold lastIs. now rewrite rev_app_distr. Qed.

Lemma lastIs_cons (p : N -> bool) (c d : N) (r : jsstring) :
  lastIs p (c :: d :: r) = lastIs p (d :: r).
Proof.
  unfold lastIs. cbn [rev].
  destruct (rev r ++ [d]) as [|x t] eqn:E; [|reflexivity].
  now destruct (rev r).
Qed.

Lemma trimEnd_last (s : jsstring) : lastIs Char.isSpace (trimEnd s) = false.
Proof.
  induction s as [|c r IH]; [reflexivity|].
  cbn [trimEnd]. destruct (trimEnd r) as [|d t].
  - destruct (Char.isSpace c) eqn:E; [reflexivity | exact E].
  - now rewrite lastIs_cons.
Qed.

Lemma trim_first (s : jsstring) : firstIs Char.isSpace (trim s) = false.
Proof. apply trimEnd_first, dropWhile_first. Qed.

Lemma trim_last (s : jsstring) : lastIs Char.isSpace (trim s) = false.
Proof. apply trimEnd_last. Qed.

(** X1: the normalised text has no three line feeds in a row, no tab and
    no two spaces in a row, neither starts nor ends with whitespace, and
    is not longer than the input. *)
Theorem normalize_shape (text : jsstring) :
  hasLF3 (normalize text) = false
  /\ blanksNormal (normalize text) = true
  /\ firstIs Char.isSpace (normalize text) = false
  /\ lastIs Char.isSpace (normalize text) = false
  /\ length (normalize text) <= length text.
Proof.
  repeat split.
  - apply hasLF3_normalize.
  - apply blanksNormal_normalize.
  - apply trim_first.
  - apply trim_last.
  - pose proof (normalize_length text).
    pose proof (@replaceAll_length _ _ matchCRLF_bound text).
    unfold replaceCRLF in *. lia.
Qed.

(** ** Lines and paragraphs *)

Lemma firstIs_mono (p q : N -> bool) (s : jsstring) :
  (forall c, q c = true -> p c = true) ->
  firstIs p s = false -> firstIs q s = false.
Proof.
  intros H. destruct s as [|c r]; [reflexivity|]. simpl. intros Hp.
  destruct (q c) eqn:E; [|reflexivity]. apply H in E. congruence.
Qed.

Lemma lastIs_mono (p q : N -> bool) (s : jsstring) :
  (forall c, q c = true -> p c = true) ->
  lastIs p s = false -> lastIs q s = false.
Proof.
  intros H. unfold lastIs. destruct (rev s) as [|c r]; [reflexivity|].
  intros Hp. destruct (q c) eqn:E; [|reflexivity]. apply H in E. congruence.
Qed.

Lemma lastIs_app (p : N -> bool) (a b : jsstring) :
  b <> [] -> lastIs p (a ++ b) = lastIs p b.
Proof.
  intros Hb. unfold lastIs. rewrite rev_app_distr.
  destruct (rev b) as [|c r] eqn:E; [|reflexivity].
  apply (f_equal (@rev N)) in E. rewrite rev_involutive in E. contradiction.
Qed.

Lemma firstIs_app (p : N -> bool) (a b : jsstring) :
  a <> [] -> firstIs p (a ++ b) = firstIs p a.
Proof. destruct a; [contradiction | reflexivity]. Qed.

Lemma SP_is_space (c : N) : N.eqb c Char.SP = true -> Char.isSpace c = true.
Proof. intros H. apply N.eqb_eq in H. now subst c. Qed.

Lemma split_hd (s : jsstring) :
  exists ls, split s = takeWhile notLF s :: ls.
Proof.
  induction s as [|c r [ls IH]]; [now exists []|].
  cbn [split takeWhile]. unfold notLF at 1.
  destruct (N.eqb c Char.LF); cbn [negb].
  - now exists (split r).
  - rewrite IH. now exists ls.
Qed.

Lemma firstIs_takeWhile (p q : N -> bool) (s : jsstring) :
  (forall c, q c = true -> p c = true) ->
  firstIs q (takeWhile p s) = firstIs q s.
Proof.
  intros H. destruct s as [|c r]; [reflexivity|]. simpl.
  destruct (p c) eqn:Ep; [reflexivity|]. simpl.
  destruct (q c) eqn:Eq; [|reflexivity]. apply H in Eq. congruence.
Qed.

(** No line holds a line feed. *)
Lemma split_notLF (s : jsstring) :
  Forall (fun l => forallb notLF l = true) (split s).
Proof.
  induction s as [|c r IH]; [repeat constructor|].
  cbn [split]. destruct (N.eqb c Char.LF) eqn:E.
  - constructor; [reflexivity | exact IH].
  - destruct (split r) as [|l ls]; [repeat constructor|].
    + simpl. unfold notLF. now rewrite E.
    + inversion IH as [|? ? Hl Hls]; subst. constructor; [|exact Hls].
      cbn [forallb]. unfold notLF at 1. now rewrite E.
Qed.

Lemma split_blanksNormal (s : jsstring) :
  blanksNormal s = true -> Forall (fun l => blanksNormal l = true) (split s).
Proof.
  induction s as [|c r IH]; [repeat constructor|].
  cbn [blanksNormal]. intros H.
  apply andb_true_iff in H as [H Hr]. specialize (IH Hr).
  cbn [split]. destruct (N.eqb c Char.LF) eqn:E.
  - constructor; [reflexivity | exact IH].
  - destruct (split_hd r) as [ls Els]. rewrite Els in *.
    inversion IH as [|? ? Hl Hls]; subst. constructor; [|exact Hls].
    cbn [blanksNormal]. rewrite Hl, andb_true_r.
    rewrite firstIs_takeWhile; [exact H|].
    intros d Hd. apply N.eqb_eq in Hd. now subst d.
Qed.

Lemma blanksNormal_app (a b : jsstring) :
  blanksNormal a = true -> blanksNormal b = true ->
  lastIs (fun d => N.eqb d Char.SP) a = false ->
  blanksNormal (a ++ b) = true.
Proof.
  induction a as [|c r IH]; [auto|]. intros Ha Hb Hl.
  cbn [blanksNormal] in Ha.
  apply andb_true_iff in Ha as [Ha Hr]. apply andb_true_iff in Ha as [Htab Hsp].
  destruct r as [|d r].
  - cbn [app blanksNormal]. rewrite Htab, Hb.
    unfold lastIs in Hl. simpl in Hl. now rewrite Hl.
  - rewrite lastIs_cons in Hl.
    change (negb (N.eqb c Char.TAB)
            && negb (N.eqb c Char.SP
                     && firstIs (fun d => N.eqb d Char.SP) (d :: r ++ b))
            && blanksNormal ((d :: r) ++ b) = true).
    rewrite Htab, (IH Hr Hb Hl). cbn [firstIs] in *. now rewrite Hsp.
Qed.

Lemma blanksNormal_trim (s : jsstring) :
  blanksNormal s = true -> blanksNormal (trim s) = true.
Proof. intros H. apply blanksNormal_trimEnd, blanksNormal_dropWhile, H. Qed.

Lemma blanksNormal_noTab (s : jsstring) :
  blanksNormal s = true -> ~ In Char.TAB s.
Proof.
  induction s as [|c r IH]; [auto|]. cbn [blanksNormal]. intros H.
  apply andb_true_iff in H as [H Hr]. apply andb_true_iff in H as [Htab _].
  apply negb_true_iff, N.eqb_neq in Htab.
  intros [E|E]; [congruence | exact (IH Hr E)].
Qed.

Lemma notLF_not_In (s : jsstring) :
  forallb notLF s = true <-> ~ In Char.LF s.
Proof.
  rewrite forallb_forall. unfold notLF. split.
  - intros H Hin. specialize (H _ Hin). now rewrite N.eqb_refl in H.
  - intros H c Hc. apply negb_true_iff. apply N.eqb_neq. congruence.
Qed.

(** A block of trimmed lines without line feeds, tabs and double spaces
    is joined to a paragraph of the same kind. *)
Lemma joinSP_inline (b : list jsstring) :
  Forall (fun l => l <> [] /\ forallb notLF l = true /\ blanksNormal l = true
                   /\ firstIs Char.isSpace l = false
                   /\ lastIs Char.isSpace l = false) b ->
  b <> [] ->
  joinSP b <> [] /\ forallb notLF (joinSP b) = true
  /\ blanksNormal (joinSP b) = true
  /\ firstIs Char.isSpace (joinSP b) = false
  /\ lastIs Char.isSpace (joinSP b) = false.
Proof.
  induction b as [|l t IH]; [congruence|]. intros H _.
  inversion H as [|? ? (Hne & Hlf & Hbn & Hf & Hl) Ht]; subst.
  destruct t as [|m t]; [cbn [joinSP]; auto|].
  destruct (IH Ht ltac:(discriminate)) as (Jne & Jlf & Jbn & Jf & Jl).
  change (joinSP (l :: m :: t)) with (l ++ [Char.SP] ++ joinSP (m :: t)).
  set (J := joinSP (m :: t)) in *. repeat split.
  - destruct l; [congruence | discriminate].
  - rewrite !forallb_app, Hlf, Jlf. reflexivity.
  - apply blanksNormal_app; [exact Hbn| |].
    + cbn [app blanksNormal]. rewrite Jbn.
      rewrite (@firstIs_mono Char.isSpace _ J SP_is_space Jf). reflexivity.
    + exact (@lastIs_mono Char.isSpace _ l SP_is_space Hl).
  - rewrite firstIs_app by exact Hne. exact Hf.
  - rewrite lastIs_app by discriminate.
    change ([Char.SP] ++ J) with ((Char.SP :: nil) ++ J).
    rewrite lastIs_app by exact Jne. exact Jl.
Qed.

(** The non-blank trimmed lines of a normalised text. *)
Lemma normalized_lines (text l : jsstring) :
  In l (filter truthy (map trim (split (normalize text)))) ->
  l <> [] /\ forallb notLF l = true /\ blanksNormal l = true
  /\ firstIs Char.isSpace l = false /\ lastIs Char.isSpace l = false.
Proof.
  intros H. apply filter_In in H as [H Ht].
  apply in_map_iff in H as (raw & <- & Hraw).
  pose proof (split_notLF (normalize text)) as Hlf.
  pose proof (split_blanksNormal _ (blanksNormal_normalize text)) as Hbn.
  rewrite Forall_forall in Hlf, Hbn. repeat split.
  - now apply truthy_true.
  - apply trim_forallb, Hlf, Hraw.
  - apply blanksNormal_trim, Hbn, Hraw.
  - apply trim_first.
  - apply trim_last.
Qed.

Lemma filtered_inline (text p : jsstring) :
  In p (postFilter
          (pushCurrent (groupFrom None (split (normalize text)) (State [] [])))) ->
  forallb notLF p = true /\ blanksNormal p = true.
Proof.
  intros Hin. apply postFilter_In in Hin as [(q & Hq & ->) _].
  destruct (pushCurrent_blocks (split (normalize text)))
    as (blocks & Hc & Hb & Hp).
  rewrite Hp in Hq. apply in_map_iff in Hq as (b & <- & Hbin).
  rewrite Forall_forall in Hb.
  destruct (@joinSP_inline b) as (_ & Jlf & Jbn & _).
  - apply Forall_forall. intros l Hl. apply (normalized_lines text).
    rewrite <- Hc. apply in_concat. eauto.
  - exact (Hb b Hbin).
  - split; [apply trim_forallb, Jlf | now apply blanksNormal_trim].
Qed.

(** X2: no paragraph that [detectParagraphs] returns holds a line feed,
    a tab or two spaces in a row. *)
Theorem emitted_inline (text : jsstring) (ps : list jsstring) (p : jsstring) :
  detectParagraphs text = Ok ps -> In p ps ->
  ~ In Char.LF p /\ ~ In Char.TAB p /\ blanksNormal p = true.
Proof.
  rewrite detectParagraphs_ok. intros [= <-] Hin.
  apply filtered_inline in Hin as [Hlf Hbn]. repeat split.
  - now apply notLF_not_In.
  - now apply blanksNormal_noTab.
  - exact Hbn.
Qed.

Lemma emitted_inline_witness :
  ~ In Char.LF (js "1. First item") /\ ~ In Char.TAB (js "1. First item")
  /\ blanksNormal (js "1. First item") = true.
Proof.
  apply (@emitted_inline Sample.numbered
           [js "Intro text."; js "1. First item"; js "2. Second item"]).
  - vm_compute. reflexivity.
  - simpl. auto.
Defined.

(** ** The shape of the blocks *)

Lemma okBlock_one (l : jsstring) :
  aloneIfClosed [l] = true /\ markersFirst [l] = true.
Proof. split; reflexivity. Qed.

(** A line is appended only to an accumulator that is open, and only if
    it is open itself and starts with no marker. *)
Lemma okBlock_snoc (cb : list jsstring) (prev next : option jsstring)
    (line : jsstring) :
  cb <> [] ->
  aloneIfClosed cb = true -> markersFirst cb = true ->
  startOn prev (joinSP cb) line = false ->
  contOn next line = true ->
  aloneIfClosed (cb ++ [line]) = true /\ markersFirst (cb ++ [line]) = true.
Proof.
  intros Hne Ha Hm Hs Hc. unfold startOn in Hs.
  apply orb_false_iff in Hs as [Hs Hstruct].
  apply orb_false_iff in Hs as [Hs _].
  apply orb_false_iff in Hs as [Hterm Hlist].
  assert (Hline : lastIs Char.isTerminator line = false).
  { unfold contOn in Hc. destruct next; [|discriminate].
    apply andb_true_iff in Hc as [Hc _]. now apply negb_true_iff in Hc. }
  assert (Hcur : truthy (joinSP cb) = true -> 
                 lastIs Char.isTerminator (joinSP cb) = false).
  { intros Ht. now rewrite Ht in Hterm. }
  split.
  - unfold aloneIfClosed in *. rewrite forallb_app. cbn [forallb].
    rewrite Hline. cbn [negb andb]. rewrite andb_true_r.
    apply orb_true_iff in Ha as [Ha|Ha]; [|rewrite Ha; apply orb_true_r].
    destruct cb as [|h [|h2 t]]; [congruence| |discriminate].
    cbn [joinSP] in Hcur. cbn [forallb]. rewrite andb_true_r.
    destruct h as [|c r]; [reflexivity|].
    rewrite Hcur by reflexivity. apply orb_true_r.
  - unfold markersFirst in *. destruct cb as [|h t]; [congruence|].
    cbn [app tl] in *. rewrite forallb_app, Hm. cbn [forallb].
    now rewrite Hlist, Hstruct.
Qed.

Lemma bodyOn_Cut (prev next : option jsstring) (raw : jsstring)
    (st : state) (blocks : list (list jsstring)) (cb : list jsstring) :
  Cut st blocks cb ->
  exists blocks' cb',
    Cut (bodyOn prev next raw st) blocks' cb'
    /\ concat blocks' ++ cb' = (concat blocks ++ cb) ++ filter truthy [trim raw].
Proof.
  intros [G S]. pose proof G as (Hp & Hc & Hb & Hl).
  inversion S as [|? ? Scb Sbl]; subst.
  assert (Sflush : Forall (fun b => aloneIfClosed b = true /\ markersFirst b = true)
                     (blocks ++ [cb])).
  { apply Forall_app. split; [exact Sbl | now constructor]. }
  assert (Hflush : forall line, truthy line = true ->
            truthy (currentParagraph st) = true ->
            exists blocks' cb',
              Cut (State (paragraphs st ++ [currentParagraph st]) line)
                blocks' cb'
              /\ concat blocks' ++ cb' = (concat blocks ++ cb) ++ [line]).
  { intros line Hline Ht. destruct (Grouped_flush G Ht) as [E F].
    exists (blocks ++ [cb]), [line]. split.
    - split; [repeat split; auto|]. constructor; [apply okBlock_one | exact Sflush].
    - rewrite concat_app. simpl. now rewrite app_nil_r. }
  assert (Hfresh : forall line, truthy line = true ->
            truthy (currentParagraph st) = false ->
            exists blocks' cb',
              Cut (State (paragraphs st) line) blocks' cb'
              /\ concat blocks' ++ cb' = (concat blocks ++ cb) ++ [line]).
  { intros line Hline Ht. rewrite (Grouped_idle G Ht).
    exists blocks, [line]. split.
    - split; [repeat split; auto|]. constructor; [apply okBlock_one | exact Sbl].
    - now rewrite app_nil_r. }
  unfold bodyOn. cbn [filter].
  destruct (truthy (trim raw)) eqn:Eline; cbn [negb].
  - destruct (startOn prev (currentParagraph st) (trim raw)
              && truthy (currentParagraph st)) eqn:Estart.
    + apply andb_true_iff in Estart as [_ Ht]. auto.
    + destruct (contOn next (trim raw)) eqn:Econt.
      * destruct (truthy (currentParagraph st)) eqn:Ht; [|auto].
        rewrite andb_true_r in Estart.
        assert (Hne : cb <> []).
        { intros ->. rewrite Hc in Ht. discriminate. }
        exists blocks, (cb ++ [trim raw]). split.
        -- split.
           ++ repeat split; auto; cbn [paragraphs currentParagraph].
              ** now rewrite joinSP_snoc, Hc.
              ** apply Forall_app. auto.
           ++ constructor; [|exact Sbl]. rewrite Hc in Estart.
              destruct Scb. eapply okBlock_snoc; eauto.
        -- now rewrite app_assoc.
      * unfold pushCurrent.
        destruct (truthy (currentParagraph st)) eqn:Ht; auto.
  - rewrite app_nil_r.
    destruct (truthy (currentParagraph st)) eqn:Ht.
    + destruct (Grouped_flush G Ht) as [E F].
      exists (blocks ++ [cb]), []. split.
      * split; [repeat split; auto|].
        constructor; [split; reflexivity | exact Sflush].
      * rewrite concat_app. simpl. now rewrite !app_nil_r.
    + exists blocks, cb. split; [split; [exact G | exact S] | reflexivity].
Qed.

Lemma groupFrom_Cut (ls : list jsstring) (prev : option jsstring)
    (st : state) (blocks : list (list jsstring)) (cb : list jsstring) :
  Cut st blocks cb ->
  exists blocks' cb',
    Cut (groupFrom prev ls st) blocks' cb'
    /\ concat blocks' ++ cb'
       = (concat blocks ++ cb) ++ filter truthy (map trim ls).
Proof.
  revert prev st blocks cb.
  induction ls as [|raw rest IH]; intros prev st blocks cb C.
  - exists blocks, cb. split; [exact C|]. simpl. now rewrite app_nil_r.
  - destruct (bodyOn_Cut prev (hd_error rest) raw C) as (b1 & c1 & C1 & E1).
    destruct (IH (Some raw) _ _ _ C1) as (b2 & c2 & C2 & E2).
    exists b2, c2. split; [exact C2|].
    rewrite E2, E1, <- app_assoc. f_equal.
    cbn [map filter]. now destruct (truthy (trim raw)).
Qed.

(** X3: the paragraphs before the post-filter are blocks of the non-blank
    trimmed lines, in order, such that a line ending in a sentence
    terminator is the only line of its block, and a line starting with a
    list marker or a structural marker is the first line of its block. *)
Theorem blocks_shape (t : jsstring) :
  exists blocks : list (list jsstring),
    groupLines t = Ok (map joinSP blocks)
    /\ concat blocks = filter truthy (map trim (split t))
    /\ Forall (fun b => b <> []) blocks
    /\ Forall (fun b => aloneIfClosed b = true) blocks
    /\ Forall (fun b => markersFirst b = true) blocks.
Proof.
  destruct (@groupFrom_Cut (split t) None (State [] []) [] [])
    as (blocks & cb & [G S] & E).
  { split; [repeat split; constructor|]. repeat constructor. }
  simpl in E. rewrite groupLines_ok. unfold pushCurrent.
  inversion S as [|? ? Scb Sbl]; subst.
  destruct (truthy (currentParagraph (groupFrom None (split t) (State [] []))))
    eqn:Ht.
  - destruct (Grouped_flush G Ht) as [E1 F1].
    exists (blocks ++ [cb]). rewrite E1. repeat split; auto.
    + rewrite concat_app. simpl. now rewrite app_nil_r.
    + apply Forall_app. split.
      * eapply Forall_impl; [|exact Sbl]. now intros b [? _].
      * constructor; [apply Scb | constructor].
    + apply Forall_app. split.
      * eapply Forall_impl; [|exact Sbl]. now intros b [_ ?].
      * constructor; [apply Scb | constructor].
  - rewrite (Grouped_idle G Ht), app_nil_r in E.
    destruct G as (Hp & _ & Hb & _). exists blocks. rewrite Hp.
    repeat split; auto.
    + eapply Forall_impl; [|exact Sbl]. now intros b [? _].
    + eapply Forall_impl; [|exact Sbl]. now intros b [_ ?].
Qed.

(** ** The last line *)

Lemma groupFrom_snoc (pre : list jsstring) (l : jsstring)
    (prev : option jsstring) (st : state) :
  exists prev' st', groupFrom prev (pre ++ [l]) st = bodyOn prev' None l st'.
Proof.
  revert prev st. induction pre as [|x pre IH]; intros prev st.
  - now exists prev, st.
  - cbn [app groupFrom]. apply IH.
Qed.

(** With no line behind it, a non-blank line ends up alone in the
    accumulator. *)
Lemma bodyOn_last (prev : option jsstring) (l : jsstring) (st : state) :
  truthy (trim l) = true ->
  exists ps, pushCurrent (bodyOn prev None l st) = ps ++ [trim l].
Proof.
  intros Ht. unfold bodyOn. rewrite Ht. cbn [negb contOn].
  destruct (startOn prev (currentParagraph st) (trim l)
            && truthy (currentParagraph st));
    unfold pushCurrent at 1; cbn [currentParagraph paragraphs];
    rewrite Ht; eauto.
Qed.

Lemma split_snoc (s : jsstring) (c : N) :
  N.eqb c Char.LF = false ->
  exists ls l, split (s ++ [c]) = ls ++ [l ++ [c]].
Proof.
  intros Hc. induction s as [|d r (ls & l & IH)].
  - exists [], []. simpl. now rewrite Hc.
  - cbn [app split]. rewrite IH. destruct (N.eqb d Char.LF).
    + now exists ([] :: ls), l.
    + destruct ls as [|x ls].
      * now exists [], (d :: l).
      * now exists ((d :: x) :: ls), l.
Qed.

Lemma trimEnd_snoc (a : jsstring) (c : N) :
  Char.isSpace c = false -> trimEnd (a ++ [c]) = a ++ [c].
Proof.
  intros Hc. induction a as [|d a IH]; [simpl; now rewrite Hc|].
  cbn [app]. rewrite trimEnd_cons; rewrite IH; [reflexivity|].
  now destruct a.
Qed.

Lemma dropWhile_snoc (p : N -> bool) (a : jsstring) (c : N) :
  p c = false -> exists a', dropWhile p (a ++ [c]) = a' ++ [c].
Proof.
  intros Hc. induction a as [|d a [a' IH]].
  - exists []. simpl. now rewrite Hc.
  - cbn [app dropWhile]. destruct (p d); [now exists a' | now exists (d :: a)].
Qed.

Lemma trim_snoc (a : jsstring) (c : N) :
  Char.isSpace c = false -> trim (a ++ [c]) <> [].
Proof.
  intros Hc. unfold trim, trimStart.
  destruct (@dropWhile_snoc Char.isSpace a c Hc) as [a' ->].
  rewrite trimEnd_snoc by exact Hc. now destruct a'.
Qed.

Lemma lastIs_false_snoc (p : N -> bool) (s : jsstring) :
  s <> [] -> lastIs p s = false -> exists a c, s = a ++ [c] /\ p c = false.
Proof.
  intros Hne H. destruct (exists_last Hne) as (a & c & ->).
  rewrite lastIs_snoc in H. eauto.
Qed.

(** X4: the last line of a non-empty normalised text is never joined to
    the lines before it: trimmed, it is the last paragraph before the
    post-filter. *)
Theorem last_line_alone (text : jsstring) :
  normalize text <> [] ->
  exists ls l ps,
    split (normalize text) = ls ++ [l]
    /\ trim l <> []
    /\ groupLines (normalize text) = Ok (ps ++ [trim l]).
Proof.
  intros Hne.
  destruct (@lastIs_false_snoc Char.isSpace _ Hne (trim_last _)) as (a & c & E & Hc).
  assert (Hlf : N.eqb c Char.LF = false).
  { destruct (N.eqb_spec c Char.LF) as [->|]; [discriminate | reflexivity]. }
  destruct (@split_snoc a c Hlf) as (ls & l & Hs).
  rewrite E, groupLines_ok, Hs.
  destruct (groupFrom_snoc ls (l ++ [c]) None (State [] [])) as (pv & st & Hg).
  pose proof (@trim_snoc l c Hc) as Ht.
  destruct (@bodyOn_last pv (l ++ [c]) st) as [ps Hps].
  { now apply truthy_true. }
  exists ls, (l ++ [c]), ps. split; [reflexivity|]. split; [exact Ht|].
  f_equal. etransitivity; [apply f_equal; exact Hg | exact Hps].
Qed.

Lemma last_line_alone_witness :
  exists ls l ps,
    split (normalize Sample.wrapped) = ls ++ [l]
    /\ trim l <> []
    /\ groupLines (normalize Sample.wrapped) = Ok (ps ++ [trim l]).
Proof. apply last_line_alone. vm_compute. discriminate. Defined.

(** ** The post-filter, again *)

Lemma postFilter_fixed (l : list jsstring) :
  Forall (fun p => trim p = p /\ keep p = true) l -> postFilter l = l.
Proof.
  unfold postFilter. induction l as [|p l IH]; [reflexivity|].
  intros H. inversion H as [|? ? [Ht Hk] Hl]; subst.
  cbn [map filter]. rewrite Ht, Hk. now rewrite IH.
Qed.

(** X5: the post-filter is idempotent: filtering filtered paragraphs
    again neither drops nor changes any. *)
Theorem postFilter_idempotent (ps : list jsstring) :
  postFilter (postFilter ps) = postFilter ps.
Proof.
  apply postFilter_fixed, Forall_forall. intros p Hp.
  apply postFilter_In in Hp as [(q & _ & ->) Hk].
  split; [apply trim_idem | exact Hk].
Qed.

(** ** Texts of one line *)

Lemma notLF_lfRun (s : jsstring) : forallb notLF s = true -> lfRun s = 0.
Proof.
  destruct s as [|c r]; [reflexivity|]. cbn [forallb]. intros H.
  apply andb_true_iff in H as [H _]. unfold notLF in H.
  apply negb_true_iff in H. rewrite lfRun_cons.
  now rewrite N.eqb_sym, H.
Qed.

Lemma notLF_hasLF3 (s : jsstring) : forallb notLF s = true -> hasLF3 s = false.
Proof.
  induction s as [|c r IH]; [reflexivity|]. intros H.
  rewrite hasLF3_cons, (notLF_lfRun _ H).
  cbn [forallb] in H. apply andb_true_iff in H as [_ H]. now rewrite IH.
Qed.

Lemma notLF_hasCRLF (s : jsstring) : forallb notLF s = true -> hasCRLF s = false.
Proof.
  unfold hasCRLF. induction s as [|c r IH]; [reflexivity|].
  cbn [forallb matchesIn]. intros H. apply andb_true_iff in H as [_ Hr].
  rewrite (IH Hr), orb_false_r. destruct r as [|d r]; [reflexivity|].
  cbn [forallb] in Hr. apply andb_true_iff in Hr as [Hd _].
  unfold notLF in Hd. apply negb_true_iff in Hd.
  simpl. now rewrite Hd, andb_false_r.
Qed.

Lemma split_single (s : jsstring) : forallb notLF s = true -> split s = [s].
Proof.
  induction s as [|c r IH]; [reflexivity|]. cbn [forallb split]. intros H.
  apply andb_true_iff in H as [Hc Hr]. unfold notLF in Hc.
  apply negb_true_iff in Hc. now rewrite Hc, IH.
Qed.

(** A text without line feed is normalised by collapsing its blanks and
    trimming it, and stays without line feed. *)
Lemma normalize_single (text : jsstring) :
  forallb notLF text = true ->
  normalize text = trim (collapseBlanks text)
  /\ forallb notLF (normalize text) = true.
Proof.
  intros H. unfold normalize, replaceCRLF, collapseLF.
  rewrite (@replaceAll_id _ _ _ (notLF_hasCRLF _ H)).
  rewrite (@replaceAll_id _ _ _ (notLF_hasLF3 _ H)).
  split; [reflexivity|]. apply trim_forallb.
  unfold collapseBlanks, replaceAll. now apply replaceFrom_forallb.
Qed.

Lemma detect_single (text : jsstring) :
  forallb notLF text = true ->
  detectParagraphs text
  = Ok (if keep (normalize text) then [normalize text] else []).
Proof.
  intros H. destruct (normalize_single _ H) as [_ Hn].
  rewrite detectParagraphs_ok, (split_single _ Hn).
  cbn [groupFrom hd_error]. unfold bodyOn.
  assert (Ht : trim (normalize text) = normalize text)
    by (unfold normalize; apply trim_idem).
  rewrite Ht. cbn [currentParagraph paragraphs truthy contOn].
  rewrite andb_false_r.
  destruct (normalize text) as [|c r] eqn:E; [reflexivity|].
  cbn [truthy negb]. unfold pushCurrent. cbn [currentParagraph paragraphs truthy app].
  unfold postFilter. cbn [map filter]. rewrite Ht. reflexivity.
Qed.

(** X6: a text without line feed gives at most one paragraph: its normal
    form (blanks collapsed, trimmed) if the post-filter keeps it, and
    nothing otherwise. *)
Theorem single_line_text (text : jsstring) :
  ~ In Char.LF text ->
  normalize text = trim (collapseBlanks text)
  /\ detectParagraphs text
     = Ok (if keep (normalize text) then [normalize text] else []).
Proof.
  intros H. apply notLF_not_In in H. split.
  - now apply normalize_single.
  - now apply detect_single.
Qed.

Lemma single_line_text_witness :
  normalize (js "  Hello   wide  world ")
  = trim (collapseBlanks (js "  Hello   wide  world "))
  /\ detectParagraphs (js "  Hello   wide  world ")
     = Ok (if keep (normalize (js "  Hello   wide  world "))
           then [normalize (js "  Hello   wide  world ")] else []).
Proof. apply single_line_text. apply notLF_not_In. reflexivity. Defined.

(** X7: a returned paragraph is a fixed point of the segmenter: given
    as a text of its own, it comes back as the one paragraph. *)
Theorem emitted_fixed_point
    (text : jsstring) (ps : list jsstring) (p : jsstring) :
  detectParagraphs text = Ok ps -> In p ps ->
  normalize p = p /\ detectParagraphs p = Ok [p].
Proof.
  rewrite detectParagraphs_ok. intros [= <-] Hin.
  destruct (filtered_inline _ _ Hin) as [Hlf Hbn].
  apply postFilter_In in Hin as [(q & _ & ->) Hk].
  assert (Hn : normalize (trim q) = trim q).
  { rewrite (proj1 (normalize_single _ Hlf)).
    rewrite (@blanksNormal_id _ Hbn). apply trim_idem. }
  split; [exact Hn|].
  rewrite (detect_single _ Hlf), Hn, Hk. reflexivity.
Qed.

Lemma emitted_fixed_point_witness :
  normalize (js "2. Second item") = js "2. Second item"
  /\ detectParagraphs (js "2. Second item") = Ok [js "2. Second item"].
Proof.
  apply (@emitted_fixed_point Sample.numbered
           [js "Intro text."; js "1. First item"; js "2. Second item"]).
  - vm_compute. reflexivity.
  - simpl. auto.
Defined.

(** ** Counting *)

Lemma concat_length_blocks {A : Type} (blocks : list (list A)) :
  Forall (fun b => b <> []) blocks -> length blocks <= length (concat blocks).
Proof.
  induction blocks as [|b bs IH]; [simpl; lia|]. intros H.
  inversion H as [|? ? Hb Hbs]; subst. cbn [concat length].
  rewrite length_app. specialize (IH Hbs).
  destruct b; [congruence | simpl; lia].
Qed.

Lemma filter_length {A : Type} (f : A -> bool) (l : list A) :
  length (filter f l) <= length l.
Proof.
  induction l as [|x l IH]; [simpl; lia|].
  simpl. destruct (f x); simpl; lia.
Qed.

(** X8: [detectParagraphs] returns at most as many paragraphs as the
    normalised text has non-blank lines. *)
Theorem paragraph_count_bound (text : jsstring) :
  exists ps,
    detectParagraphs text = Ok ps
    /\ length ps
       <= length (filter truthy (map trim (split (normalize text)))).
Proof.
  destruct (pushCurrent_blocks (split (normalize text)))
    as (blocks & Hc & Hb & Hp).
  eexists. split; [apply detectParagraphs_ok|].
  rewrite Hp, <- Hc. unfold postFilter.
  pose proof (filter_length keep (map trim (map joinSP blocks))) as L.
  rewrite !length_map in L.
  pose proof (@concat_length_blocks _ _ Hb). lia.
Qed.

(** ** Empty lines cut the text *)

Lemma split_app_LF (a b : jsstring) :
  split (a ++ Char.LF :: b) = split a ++ split b.
Proof.
  induction a as [|c r IH]; [reflexivity|].
  cbn [app split]. rewrite IH. destruct (N.eqb c Char.LF); [reflexivity|].
  destruct (split_hd r) as [ls ->]. reflexivity.
Qed.

(** A blank line is treated without a look at the next line. *)
Lemma bodyOn_blank (prev next : option jsstring) (b : jsstring) (st : state) :
  trim b = [] ->
  bodyOn prev next b st = bodyOn prev None b st
  /\ currentParagraph (bodyOn prev next b st) = [].
Proof.
  intros Hb. unfold bodyOn. rewrite Hb. cbn [truthy negb].
  split; [reflexivity|].
  destruct (truthy (currentParagraph st)) eqn:E; [reflexivity|].
  now apply truthy_false.
Qed.

Lemma groupFrom_blank_app (pre : list jsstring) (b : jsstring)
    (post : list jsstring) (prev : option jsstring) (st : state) :
  trim b = [] ->
  groupFrom prev (pre ++ b :: post) st
  = groupFrom (Some b) post (groupFrom prev (pre ++ [b]) st).
Proof.
  intros Hb. revert prev st. induction pre as [|x pre IH]; intros prev st.
  - cbn [app groupFrom hd_error].
    now rewrite (proj1 (@bodyOn_blank prev (hd_error post) b st Hb)).
  - cbn [app groupFrom]. rewrite IH. now destruct pre.
Qed.

Lemma groupFrom_blank_last (pre : list jsstring) (b : jsstring)
    (prev : option jsstring) (st : state) :
  trim b = [] -> currentParagraph (groupFrom prev (pre ++ [b]) st) = [].
Proof.
  intros Hb. destruct (groupFrom_snoc pre b prev st) as (pv & st' & ->).
  now apply bodyOn_blank.
Qed.

(** The paragraphs already finished take no part in a turn. *)
Lemma bodyOn_frame (prev next : option jsstring) (raw : jsstring)
    (P ps : list jsstring) (cur : jsstring) :
  bodyOn prev next raw (State (P ++ ps) cur)
  = State (P ++ paragraphs (bodyOn prev next raw (State ps cur)))
      (currentParagraph (bodyOn prev next raw (State ps cur))).
Proof.
  unfold bodyOn, pushCurrent. cbn [currentParagraph paragraphs].
  destruct (negb (truthy (trim raw))).
  - destruct (truthy cur); cbn [currentParagraph paragraphs];
      now rewrite ?app_assoc.
  - destruct (startOn prev cur (trim raw) && truthy cur);
      [cbn [currentParagraph paragraphs]; now rewrite app_assoc|].
    destruct (contOn next (trim raw)); [reflexivity|].
    destruct (truthy cur); cbn [currentParagraph paragraphs];
      now rewrite ?app_assoc.
Qed.

Lemma groupFrom_frame (ls : list jsstring) (prev : option jsstring)
    (P ps : list jsstring) (cur : jsstring) :
  groupFrom prev ls (State (P ++ ps) cur)
  = State (P ++ paragraphs (groupFrom prev ls (State ps cur)))
      (currentParagraph (groupFrom prev ls (State ps cur))).
Proof.
  revert prev ps cur. induction ls as [|raw rest IH]; intros prev ps cur.
  - reflexivity.
  - cbn [groupFrom]. rewrite bodyOn_frame, IH.
    now destruct (bodyOn prev (hd_error rest) raw (State ps cur)).
Qed.

(** A short line before the first line counts like no line. *)
Lemma groupFrom_after_short (b : jsstring) (ls : list jsstring) (st : state) :
  length b <= 40 -> groupFrom (Some b) ls st = groupFrom None ls st.
Proof.
  intros Hb. destruct ls as [|raw rest]; [reflexivity|].
  cbn [groupFrom]. f_equal. unfold bodyOn, startOn.
  replace (40 <? length b) with false; [reflexivity|].
  symmetry. apply Nat.ltb_ge. exact Hb.
Qed.

Lemma pushCurrent_cut (pre post : list jsstring) (b : jsstring) :
  trim b = [] -> length b <= 40 ->
  pushCurrent (groupFrom None (pre ++ b :: post) (State [] []))
  = pushCurrent (groupFrom None (pre ++ [b]) (State [] []))
    ++ pushCurrent (groupFrom None post (State [] [])).
Proof.
  intros Hb Hlen.
  rewrite (@groupFrom_blank_app pre b post None (State [] []) Hb).
  rewrite (@groupFrom_after_short b post _ Hlen).
  pose proof (@groupFrom_blank_last pre b None (State [] []) Hb) as Hc.
  destruct (groupFrom None (pre ++ [b]) (State [] [])) as [P c1].
  cbn [currentParagraph] in Hc. subst c1.
  rewrite <- (app_nil_r P) at 1. rewrite groupFrom_frame.
  unfold pushCurrent. cbn [currentParagraph paragraphs truthy].
  destruct (truthy (currentParagraph (groupFrom None post (State [] []))));
    now rewrite ?app_assoc, ?app_nil_r.
Qed.

(** X9: an empty line cuts the text for the line grouping: the paragraphs
    of [t1 ++ "\n\n" ++ t2] are those of [t1 ++ "\n"] followed by those of
    [t2]. *)
Theorem empty_line_cuts (t1 t2 : jsstring) :
  exists ps1 ps2,
    groupLines (t1 ++ [Char.LF]) = Ok ps1
    /\ groupLines t2 = Ok ps2
    /\ groupLines (t1 ++ [Char.LF; Char.LF] ++ t2) = Ok (ps1 ++ ps2).
Proof.
  rewrite !groupLines_ok. do 2 eexists. split; [reflexivity|].
  split; [reflexivity|]. f_equal.
  cbn [app]. rewrite !split_app_LF.
  exact (@pushCurrent_cut (split t1) (split t2) [] eq_refl (Nat.le_0_l 40)).
Qed.

(** ** Line endings *)

Lemma replaceCRLF_other (c : N) (s : jsstring) :
  N.eqb c Char.CR = false -> replaceCRLF (c :: s) = c :: replaceCRLF s.
Proof.
  intros Hc. destruct s as [|d r]; [reflexivity|].
  now rewrite replaceCRLF_cons, Hc.
Qed.

Lemma replaceCRLF_toCRLF (s : jsstring) :
  forallb notCR s = true -> replaceCRLF (toCRLF s) = s.
Proof.
  induction s as [|c r IH]; [reflexivity|]. cbn [forallb toCRLF].
  intros H. apply andb_true_iff in H as [Hc Hr].
  unfold notCR in Hc. apply negb_true_iff in Hc.
  destruct (N.eqb_spec c Char.LF) as [->|].
  - rewrite replaceCRLF_cons. cbn. now rewrite IH.
  - now rewrite (@replaceCRLF_other c (toCRLF r) Hc), IH.
Qed.

Lemma replaceCRLF_noCR (s : jsstring) :
  forallb notCR s = true -> replaceCRLF s = s.
Proof.
  intros H. unfold replaceCRLF. apply replaceAll_id.
  now apply notCR_hasCRLF.
Qed.

(** X18: line endings CRLF and LF give the same paragraphs: for a text
    without carriage return, writing every line feed as CRLF changes
    neither the normalised text nor the result of [detectParagraphs]. *)
Theorem crlf_like_lf (text : jsstring) :
  ~ In Char.CR text ->
  normalize (toCRLF text) = normalize text
  /\ detectParagraphs (toCRLF text) = detectParagraphs text.
Proof.
  intros H. apply notCR_not_In in H.
  assert (E : normalize (toCRLF text) = normalize text).
  { unfold normalize.
    now rewrite (replaceCRLF_toCRLF _ H), (replaceCRLF_noCR _ H). }
  split; [exact E|]. unfold detectParagraphs. now rewrite E.
Qed.

Lemma crlf_like_lf_witness :
  normalize (toCRLF Sample.numbered) = normalize Sample.numbered
  /\ detectParagraphs (toCRLF Sample.numbered)
     = detectParagraphs Sample.numbered.
Proof. apply crlf_like_lf. apply notCR_not_In. reflexivity. Defined.

(** * The service around the segmenter *)

(** ** [addDocuments] *)

Lemma chooseId_logged (E : Service.Externals) (doc : Service.Document)
    (w : Service.world E) (log : list (Service.Point (Service.vector E))) :
  Service.chooseId (Service.logged E) doc (w, log)
  = (fst (Service.chooseId E doc w), (snd (Service.chooseId E doc w), log)).
Proof.
  unfold Service.chooseId. destruct (Service.ownId doc); [reflexivity|].
  cbn. now destruct (Service.uuidv4 E w).
Qed.

(** One turn of the loop. *)
Lemma addLoop_step (E : Service.Externals) (doc : Service.Document)
    (rest : list Service.Document) (acc : list jsstring)
    (w : Service.world E) :
  Service.addLoop E (doc :: rest) acc w
  = match Service.chooseId E doc w with
    | (Service.Return i, w1) =>
        match Service.getEmbedding E (Service.content doc) w1 with
        | (Service.Return e, w2) =>
            match Service.upsert E (Service.pointOf i e doc) w2 with
            | (Service.Return _, w3) => Service.addLoop E rest (acc ++ [i]) w3
            | (Service.Throw m, w3) => (Service.Throw m, w3)
            end
        | (Service.Throw m, w2) => (Service.Throw m, w2)
        end
    | (Service.Throw m, w1) => (Service.Throw m, w1)
    end.
Proof. reflexivity. Qed.

Lemma getEmbedding_logged (E : Service.Externals) (t : jsstring)
    (w : Service.world E) (log : list (Service.Point (Service.vector E))) :
  Service.getEmbedding (Service.logged E) t (w, log)
  = (fst (Service.getEmbedding E t w), (snd (Service.getEmbedding E t w), log)).
Proof.
  unfold Service.getEmbedding, Service.bindM. cbn.
  destruct (Service.embeddingsCreate E t w) as [[[|e data]|m] w1]; reflexivity.
Qed.

(** The loop on the logged externals: it runs as on the plain ones, and
    the log grows by the points of the documents it got through. *)
Lemma addLoop_logged (E : Service.Externals) (docs : list Service.Document)
    (acc : list jsstring) (w : Service.world E)
    (log : list (Service.Point (Service.vector E))) :
  exists points k,
    Service.addLoop (Service.logged E) docs acc (w, log)
    = (fst (Service.addLoop E docs acc w),
       (snd (Service.addLoop E docs acc w), log ++ points))
    /\ k <= length docs
    /\ map (@Service.payloadContent _) points
       = map Service.content (firstn k docs)
    /\ map (@Service.payloadMetadata _) points
       = map Service.metadataOrEmpty (firstn k docs)
    /\ match fst (Service.addLoop E docs acc w) with
       | Service.Return ids =>
           k = length docs /\ ids = acc ++ map (@Service.pointId _) points
       | Service.Throw _ => k < length docs
       end.
Proof.
  revert acc w log. induction docs as [|doc rest IH]; intros acc w log.
  - exists [], 0. cbn. rewrite !app_nil_r. repeat split; try reflexivity; lia.
  - rewrite !addLoop_step, chooseId_logged.
    destruct (Service.chooseId E doc w) as [[i|m] w1]; cbn [fst snd].
    2:{ exists [], 0. cbn. rewrite app_nil_r.
        repeat split; try reflexivity; lia. }
    rewrite getEmbedding_logged.
    destruct (Service.getEmbedding E (Service.content doc) w1)
      as [[e|m] w2]; cbn [fst snd].
    2:{ exists [], 0. cbn. rewrite app_nil_r.
        repeat split; try reflexivity; lia. }
    cbn [Service.upsert Service.logged fst snd].
    change (Service.vector (Service.logged E)) with (Service.vector E).
    destruct (Service.upsert E (Service.pointOf i e doc) w2)
      as [[u|m] w3]; cbn [fst snd].
    2:{ exists [], 0. cbn. rewrite app_nil_r.
        repeat split; try reflexivity; lia. }
    destruct (IH (acc ++ [i]) w3 (log ++ [Service.pointOf i e doc]))
      as (points & k & Heq & Hk & Hc & Hm & Hids).
    exists (Service.pointOf i e doc :: points), (S k).
    split; [|split; [|split; [|split]]].
    + rewrite Heq, <- app_assoc. reflexivity.
    + simpl. lia.
    + cbn [map firstn]. now rewrite Hc.
    + cbn [map firstn]. now rewrite Hm.
    + destruct (fst (Service.addLoop E rest (acc ++ [i]) w3)).
      * destruct Hids as [-> ->]. split; [reflexivity|].
        cbn [map]. now rewrite <- app_assoc.
      * simpl. lia.
Qed.

(** The loop appends to [ids], one id per document. *)
Lemma addLoop_ids (E : Service.Externals) (docs : list Service.Document)
    (acc : list jsstring) (w w' : Service.world E) (ids : list jsstring) :
  Service.addLoop E docs acc w = (Service.Return ids, w') ->
  exists new,
    ids = acc ++ new
    /\ length new = length docs
    /\ forall n doc own,
         nth_error docs n = Some doc -> Service.ownId doc = Some own ->
         nth_error new n = Some own.
Proof.
  revert acc w. induction docs as [|doc rest IH]; intros acc w.
  - intros [= <- <-]. exists []. rewrite app_nil_r. repeat split.
    intros [|n]; discriminate.
  - rewrite addLoop_step.
    destruct (Service.chooseId E doc w) as [[i|m] w1] eqn:Eid; [|discriminate].
    destruct (Service.getEmbedding E (Service.content doc) w1)
      as [[e|m] w2]; [|discriminate].
    destruct (Service.upsert E (Service.pointOf i e doc) w2)
      as [[u|m] w3]; [|discriminate].
    intros H. destruct (IH _ _ H) as (new & -> & Hlen & Hown).
    exists (i :: new). rewrite <- app_assoc. repeat split.
    + simpl. now rewrite Hlen.
    + intros [|n] d own; cbn [nth_error].
      * intros [= <-] Ho. unfold Service.chooseId in Eid. rewrite Ho in Eid.
        now injection Eid as <- _.
      * apply Hown.
Qed.

(** X10: when [addDocuments] returns, it returns one id per document, in
    the order of the documents, and the id of a document that came with a
    non-empty [id] is that [id]. *)
Theorem addDocuments_ids (E : Service.Externals)
    (docs : list Service.Document) (w w' : Service.world E)
    (ids : list jsstring) :
  Service.addDocuments E docs w = (Service.Return ids, w') ->
  length ids = length docs
  /\ forall n doc own,
       nth_error docs n = Some doc -> Service.id doc = Some own -> own <> [] ->
       nth_error ids n = Some own.
Proof.
  intros H. apply addLoop_ids in H as (new & -> & Hlen & Hown).
  split; [exact Hlen|]. intros n doc own Hn Hid Hne. apply (Hown n doc own Hn).
  unfold Service.ownId. rewrite Hid.
  apply truthy_true in Hne. now rewrite Hne.
Qed.

Lemma addDocuments_ids_witness :
  length [js "a"; js "u"]
  = length [Service.Build_Document (Some (js "a")) (js "first") None;
            Service.Build_Document None (js "second") None]
  /\ forall n doc own,
       nth_error [Service.Build_Document (Some (js "a")) (js "first") None;
                  Service.Build_Document None (js "second") None] n = Some doc ->
       Service.id doc = Some own -> own <> [] ->
       nth_error [js "a"; js "u"] n = Some own.
Proof.
  apply (@addDocuments_ids Service.counting
           [Service.Build_Document (Some (js "a")) (js "first") None;
            Service.Build_Document None (js "second") None] 0 1).
  reflexivity.
Defined.

Lemma addLoop_acc (E : Service.Externals) (docs : list Service.Document)
    (acc : list jsstring) (w : Service.world E) :
  Service.addLoop E docs acc w
  = match Service.addLoop E docs [] w with
    | (Service.Return ids, w') => (Service.Return (acc ++ ids), w')
    | (Service.Throw m, w') => (Service.Throw m, w')
    end.
Proof.
  revert acc w. induction docs as [|doc rest IH]; intros acc w.
  - cbn. now rewrite app_nil_r.
  - rewrite !addLoop_step.
    destruct (Service.chooseId E doc w) as [[i|m] w1]; [|reflexivity].
    destruct (Service.getEmbedding E (Service.content doc) w1)
      as [[e|m] w2]; [|reflexivity].
    destruct (Service.upsert E (Service.pointOf i e doc) w2)
      as [[u|m] w3]; [|reflexivity].
    rewrite (IH (acc ++ [i])), (IH ([] ++ [i])).
    destruct (Service.addLoop E rest [] w3) as [[ids|m] w4]; [|reflexivity].
    now rewrite <- app_assoc.
Qed.

Lemma addLoop_app (E : Service.Externals) (a b : list Service.Document)
    (acc : list jsstring) (w : Service.world E) :
  Service.addLoop E (a ++ b) acc w
  = match Service.addLoop E a acc w with
    | (Service.Return ids, w') => Service.addLoop E b ids w'
    | (Service.Throw m, w') => (Service.Throw m, w')
    end.
Proof.
  revert acc w. induction a as [|doc rest IH]; intros acc w; [reflexivity|].
  cbn [app]. rewrite !addLoop_step.
  destruct (Service.chooseId E doc w) as [[i|m] w1]; [|reflexivity].
  destruct (Service.getEmbedding E (Service.content doc) w1)
    as [[e|m] w2]; [|reflexivity].
  destruct (Service.upsert E (Service.pointOf i e doc) w2)
    as [[u|m] w3]; [|reflexivity].
  apply IH.
Qed.

(** X11: adding a batch is adding its parts one after the other: the
    ids are those of the first part followed by those of the second, and
    a failure in the first part leaves the second untouched. *)
Theorem addDocuments_app (E : Service.Externals)
    (a b : list Service.Document) (w : Service.world E) :
  Service.addDocuments E (a ++ b) w
  = Service.bindM (Service.addDocuments E a)
      (fun ia =>
         Service.bindM (Service.addDocuments E b)
           (fun ib => Service.ret (ia ++ ib))) w.
Proof.
  unfold Service.addDocuments, Service.bindM. rewrite addLoop_app.
  destruct (Service.addLoop E a [] w) as [[ia|m] w1]; [|reflexivity].
  rewrite addLoop_acc.
  now destruct (Service.addLoop E b [] w1) as [[ib|m] w2].
Qed.

(** X12: the [upsert] calls of [addDocuments] that return are, in order,
    those of the documents, each under the id returned for it, with its
    content and its metadata (none if it has none).  When [addDocuments]
    throws, the calls that returned are those of the documents before the
    failing one and are not undone; no call is made for the documents
    behind it. *)
Theorem addDocuments_stores (E : Service.Externals)
    (docs : list Service.Document) (w : Service.world E)
    (log : list (Service.Point (Service.vector E))) :
  exists points k,
    Service.addDocuments (Service.logged E) docs (w, log)
    = (fst (Service.addDocuments E docs w),
       (snd (Service.addDocuments E docs w), log ++ points))
    /\ map (@Service.payloadContent _) points
       = map Service.content (firstn k docs)
    /\ map (@Service.payloadMetadata _) points
       = map Service.metadataOrEmpty (firstn k docs)
    /\ match fst (Service.addDocuments E docs w) with
       | Service.Return ids =>
           k = length docs /\ ids = map (@Service.pointId _) points
       | Service.Throw _ => k < length docs
       end.
Proof.
  destruct (addLoop_logged E docs [] w log)
    as (points & k & Heq & _ & Hc & Hm & Hids).
  exists points, k. repeat split; assumption.
Qed.

(** ** [parsePdfAndSave] *)

Lemma mapi_length {A B : Type} (f : A -> nat -> B) (k : nat) (l : list A) :
  length (Service.mapi f k l) = length l.
Proof.
  revert k. induction l as [|x l IH]; intros k; [reflexivity|].
  simpl. now rewrite IH.
Qed.







(** ** The [answer] route *)

(** The request that [optimizeQuery] sends. *)
Lemma optimizeQuery_cases (E : Service.Externals) (q : jsstring)
    (w : Service.world E) :
  exists q' w0,
    Service.optimizeQuery E q w = (Service.Return q', w0)
    /\ forall m w1,
         Service.chatCreate E
           (Service.Build_ChatRequest Service.chatModel Service.optimizePrompt q 3)
           w = (Service.Throw m, w1) ->
         q' = q /\ w0 = w1.
Proof.
  unfold Service.optimizeQuery, Service.tryCatch, Service.bindM.
  destruct (Service.chatCreate E _ w) as [[[|[c|] choices]|m] w0];
    cbn; do 2 eexists; (split; [reflexivity|]); try discriminate.
  intros m' w1 [= _ <-]. auto.
Qed.

Lemma generateAnswer_cases (E : Service.Externals) (q : jsstring)
    (docs : list (Service.Found (Service.score E))) (w : Service.world E) :
  exists a w0,
    Service.generateAnswer E q docs w = (Service.Return a, w0)
    /\ ((exists m, Service.chatCreate E
                     (Service.Build_ChatRequest Service.chatModel
                        (Service.answerPrompt
                         ++ Service.join [Char.LF; Char.LF]
                              (map (@Service.foundContent _) docs))
                        q 7) w = (Service.Throw m, w0)) ->
        a = Service.apology).
Proof.
  unfold Service.generateAnswer, Service.tryCatch, Service.bindM.
  destruct (Service.chatCreate E _ w) as [[[|[c|] choices]|m] w0];
    cbn; do 2 eexists; (split; [reflexivity|]); try reflexivity;
    intros [m' H]; discriminate.
Qed.

(** X14: the [answer] route throws only when the embedding or the search
    throws, and then with that error: the query optimiser always returns
    a query, and a failure of the chat API never makes the route throw. *)
Theorem answer_throws_only_in_search (E : Service.Externals)
    (request : Service.QueryRequest) (w w' : Service.world E) (m : jsstring) :
  Service.answer E request w = (Service.Throw m, w') ->
  exists q w0,
    Service.optimizeQuery E (Service.query request) w = (Service.Return q, w0)
    /\ (Service.getEmbedding E q w0 = (Service.Throw m, w')
        \/ exists v w1,
             Service.getEmbedding E q w0 = (Service.Return v, w1)
             /\ Service.search E v (Service.limitOf request) w1
                = (Service.Throw m, w')).
Proof.
  unfold Service.answer, Service.queryDocuments.
  unfold Service.bindM at 1 2.
  destruct (optimizeQuery_cases E (Service.query request) w)
    as (q & w0 & Hq & _).
  rewrite Hq. intros H. exists q, w0. split; [reflexivity|].
  unfold Service.bindM in H.
  destruct (Service.getEmbedding E q w0) as [[v|m1] w1].
  - right. exists v, w1. split; [reflexivity|].
    destruct (Service.search E v (Service.limitOf request) w1)
      as [[hits|m2] w2]; [|now injection H as -> ->].
    unfold Service.ret in H.
    destruct (generateAnswer_cases E (Service.query request)
                (map (@Service.foundOf _) hits) w2) as (a & w3 & Ha & _).
    rewrite Ha in H. discriminate.
  - left. now injection H as -> ->.
Qed.

Lemma answer_throws_only_in_search_witness :
  exists q w0,
    Service.optimizeQuery Service.searchDown (js "what is a contract") 0
    = (Service.Return q, w0)
    /\ (Service.getEmbedding Service.searchDown q w0
        = (Service.Throw (js "search down"), 0)
        \/ exists v w1,
             Service.getEmbedding Service.searchDown q w0
             = (Service.Return v, w1)
             /\ Service.search Service.searchDown v
                  (Service.limitOf
                     (Service.Build_QueryRequest (js "what is a contract") None))
                  w1
                = (Service.Throw (js "search down"), 0)).
Proof.
  apply (@answer_throws_only_in_search Service.searchDown
           (Service.Build_QueryRequest (js "what is a contract") None) 0 0).
  reflexivity.
Defined.

(** X15: with the chat API down, the [answer] route still answers when
    the embedding and the search work: it embeds the query as the user
    wrote it and returns the apology sentence. *)
Theorem answer_chat_down (E : Service.Externals)
    (request : Service.QueryRequest) (w w' : Service.world E) (a : jsstring) :
  (forall r w0, exists m w1, Service.chatCreate E r w0 = (Service.Throw m, w1)) ->
  Service.answer E request w = (Service.Return a, w') ->
  a = Service.apology
  /\ exists w0 v w1 hits w2,
       Service.optimizeQuery E (Service.query request) w
       = (Service.Return (Service.query request), w0)
       /\ Service.getEmbedding E (Service.query request) w0
          = (Service.Return v, w1)
       /\ Service.search E v (Service.limitOf request) w1
          = (Service.Return hits, w2).
Proof.
  intros Hchat. unfold Service.answer, Service.queryDocuments.
  unfold Service.bindM at 1 2.
  destruct (optimizeQuery_cases E (Service.query request) w)
    as (q & w0 & Hq & Hfail).
  destruct (Hchat (Service.Build_ChatRequest Service.chatModel
                     Service.optimizePrompt (Service.query request) 3) w)
    as (m0 & w0' & Hc0).
  destruct (Hfail _ _ Hc0) as [-> ->]. rewrite Hq.
  unfold Service.bindM, Service.ret.
  destruct (Service.getEmbedding E (Service.query request) w0')
    as [[v|m1] w1] eqn:Eg; [|discriminate].
  destruct (Service.search E v (Service.limitOf request) w1)
    as [[hits|m2] w2] eqn:Es; [|discriminate].
  destruct (generateAnswer_cases E (Service.query request)
              (map (@Service.foundOf _) hits) w2) as (a' & w3 & Ha & Hap).
  rewrite Ha. intros [= <- <-]. split.
  - destruct (Hchat (Service.Build_ChatRequest Service.chatModel
                       (Service.answerPrompt
                        ++ Service.join [Char.LF; Char.LF]
                             (map (@Service.foundContent _)
                                (map (@Service.foundOf _) hits)))
                       (Service.query request) 7) w2) as (m3 & w3' & Hc3).
    apply Hap. exists m3.
    unfold Service.generateAnswer, Service.tryCatch, Service.bindM in Ha.
    rewrite Hc3 in Ha. cbn in Ha. injection Ha as _ <-. exact Hc3.
  - exists w0', v, w1, hits, w2. repeat split; first [reflexivity | assumption].
Qed.

Lemma answer_chat_down_witness :
  Service.apology = Service.apology
  /\ exists w0 v w1 hits w2,
       Service.optimizeQuery Service.counting (js "what is a contract") 0
       = (Service.Return (js "what is a contract"), w0)
       /\ Service.getEmbedding Service.counting (js "what is a contract") w0
          = (Service.Return v, w1)
       /\ Service.search Service.counting v
            (Service.limitOf
               (Service.Build_QueryRequest (js "what is a contract") (Some 0)))
            w1
          = (Service.Return hits, w2).
Proof.
  apply (@answer_chat_down Service.counting
           (Service.Build_QueryRequest (js "what is a contract") (Some 0)) 0 0).
  - intros r w0. now exists (js "chat down"), w0.
  - reflexivity.
Defined.

(** * The segmentation at blank lines *)

Lemma noBlank_app (b : bool) (p q : jsstring) :
  Plain.noBlank b (p ++ q)
  = Plain.noBlank b p && Plain.noBlank (Plain.armedAfter b p) q.
Proof.
  revert b. induction p as [|c r IH]; intros b; [reflexivity|].
  cbn [app Plain.noBlank Plain.armedAfter].
  destruct (N.eqb c Char.LF); rewrite IH; [|reflexivity].
  now rewrite andb_assoc.
Qed.

Lemma armedAfter_app (b : bool) (p q : jsstring) :
  Plain.armedAfter b (p ++ q) = Plain.armedAfter (Plain.armedAfter b p) q.
Proof.
  revert b. induction p as [|c r IH]; intros b; [reflexivity|].
  cbn [app Plain.armedAfter]. apply IH.
Qed.

Lemma noBlank_mono (b : bool) (p : jsstring) :
  Plain.noBlank b p = true -> Plain.noBlank false p = true.
Proof.
  revert b. induction p as [|c r IH]; intros b; [reflexivity|].
  cbn [Plain.noBlank]. destruct (N.eqb c Char.LF).
  - intros H. apply andb_true_iff in H as [_ H]. exact H.
  - cbn [andb]. apply IH.
Qed.

Lemma noBlank_tail (b : bool) (c : N) (r : jsstring) :
  Plain.noBlank b (c :: r) = true -> Plain.noBlank false r = true.
Proof.
  cbn [Plain.noBlank]. destruct (N.eqb c Char.LF).
  - intros H. apply andb_true_iff in H as [_ H]. exact (noBlank_mono _ _ H).
  - apply noBlank_mono.
Qed.

Lemma noBlank_dropWhile (p : N -> bool) (s : jsstring) :
  Plain.noBlank false s = true -> Plain.noBlank false (dropWhile p s) = true.
Proof.
  induction s as [|c r IH]; [auto|]. cbn [dropWhile].
  destruct (p c); [|auto]. intros H. apply IH. exact (noBlank_tail _ _ _ H).
Qed.

Lemma noBlank_trimEnd (b : bool) (s : jsstring) :
  Plain.noBlank b s = true -> Plain.noBlank b (trimEnd s) = true.
Proof.
  revert b. induction s as [|c r IH]; intros b; [auto|].
  cbn [trimEnd]. destruct (trimEnd r) as [|d t] eqn:E.
  - destruct (Char.isSpace c) eqn:Ec; [reflexivity|]. intros _.
    cbn [Plain.noBlank].
    destruct (N.eqb_spec c Char.LF) as [->|]; [discriminate | reflexivity].
  - cbn [Plain.noBlank]. destruct (N.eqb c Char.LF).
    + intros H. apply andb_true_iff in H as [-> H]. now apply IH.
    + apply IH.
Qed.

Lemma noBlank_trim (s : jsstring) :
  Plain.noBlank false s = true -> Plain.noBlank false (trim s) = true.
Proof. intros H. now apply noBlank_trimEnd, noBlank_dropWhile. Qed.

(** Where [\s*\n] matches, a line feed follows whitespace. *)
Lemma matchSpacesLF_armed (r : jsstring) (n : nat) :
  Plain.matchSpacesLF r = Some n -> Plain.noBlank true r = false.
Proof.
  revert n. induction r as [|c r IH]; intros n; [discriminate|].
  cbn [Plain.matchSpacesLF Plain.noBlank].
  destruct (N.eqb c Char.LF) eqn:Elf; [reflexivity|].
  destruct (Char.isSpace c); [|discriminate].
  destruct (Plain.matchSpacesLF r) as [k|]; [|discriminate].
  intros _. exact (IH k eq_refl).
Qed.

Lemma matchSpacesLF_LF (r : jsstring) :
  Plain.matchSpacesLF (Char.LF :: r) <> None.
Proof.
  cbn [Plain.matchSpacesLF].
  replace (Char.isSpace Char.LF) with true by reflexivity.
  rewrite N.eqb_refl. now destruct (Plain.matchSpacesLF r).
Qed.

(** A text free of blank lines in the sense of [noBlank] is one in which
    the pattern matches nowhere. *)
Lemma noBlank_no_match (p : jsstring) :
  Plain.noBlank false p = true -> matchesIn Plain.matchBlankLine p = false.
Proof.
  induction p as [|c r IH]; [reflexivity|]. intros H.
  cbn [matchesIn]. rewrite (IH (noBlank_tail _ _ _ H)), orb_false_r.
  cbn [Plain.noBlank Plain.matchBlankLine] in *.
  destruct (N.eqb c Char.LF); [|reflexivity]. cbn [negb andb] in H.
  destruct (Plain.matchSpacesLF r) as [n|] eqn:E; [|reflexivity].
  apply matchSpacesLF_armed in E. congruence.
Qed.

(** Where the pattern does not match, the piece grows by one unit. *)
Lemma piece_grows (piece : jsstring) (c : N) (r : jsstring) :
  Plain.noBlank false piece = true ->
  (Plain.armedAfter false piece = true ->
   Plain.matchSpacesLF (c :: r) = None) ->
  (forall k, Plain.matchBlankLine (c :: r) <> Some (S k)) ->
  Plain.noBlank false (piece ++ [c]) = true
  /\ (Plain.armedAfter false (piece ++ [c]) = true ->
      Plain.matchSpacesLF r = None).
Proof.
  intros Hp Ha Hm. rewrite noBlank_app, armedAfter_app, Hp.
  cbn [andb Plain.noBlank Plain.armedAfter].
  destruct (N.eqb_spec c Char.LF) as [->|Hc].
  - split.
    + destruct (Plain.armedAfter false piece); [|reflexivity].
      exfalso. exact (matchSpacesLF_LF r (Ha eq_refl)).
    + intros _. cbn [Plain.matchBlankLine] in Hm. rewrite N.eqb_refl in Hm.
      destruct (Plain.matchSpacesLF r) as [n|]; [|reflexivity].
      exfalso. exact (Hm n eq_refl).
  - split; [reflexivity|]. intros H. apply andb_true_iff in H as [H1 H2].
    specialize (Ha H1). cbn [Plain.matchSpacesLF] in Ha. rewrite H2 in Ha.
    apply N.eqb_neq in Hc. rewrite Hc in Ha.
    now destruct (Plain.matchSpacesLF r).
Qed.

(** The pieces of the split are free of blank lines. *)
Lemma splitFrom_noBlank (s : jsstring) (skip : nat) (piece : jsstring) :
  Plain.noBlank false piece = true ->
  (skip = 0 -> Plain.armedAfter false piece = true ->
   Plain.matchSpacesLF s = None) ->
  (0 < skip -> piece = []) ->
  Forall (fun p => Plain.noBlank false p = true)
    (Plain.splitFrom Plain.matchBlankLine skip piece s).
Proof.
  revert skip piece. induction s as [|c r IH]; intros skip piece Hp Ha Hs.
  - repeat constructor. exact Hp.
  - cbn [Plain.splitFrom]. destruct skip as [|k].
    + specialize (Ha eq_refl).
      destruct (Plain.matchBlankLine (c :: r)) as [[|k]|] eqn:Em.
      * destruct (@piece_grows piece c r Hp Ha) as [H1 H2].
        { intros k. rewrite Em. discriminate. }
        apply IH; [exact H1 | intros _; exact H2 | lia].
      * constructor; [exact Hp|].
        apply IH; [reflexivity | intros _ H; discriminate | auto].
      * destruct (@piece_grows piece c r Hp Ha) as [H1 H2].
        { intros k. rewrite Em. discriminate. }
        apply IH; [exact H1 | intros _; exact H2 | lia].
    + rewrite (Hs ltac:(lia)).
      apply IH; [reflexivity | intros _ H; discriminate | auto].
Qed.

Lemma splitParagraphs_In (text p : jsstring) :
  In p (Plain.splitParagraphs text) <->
  p <> [] /\ exists q, In q (Plain.splitAll Plain.matchBlankLine text)
                       /\ p = trim q.
Proof.
  unfold Plain.splitParagraphs. rewrite filter_In, in_map_iff, truthy_true.
  split.
  - intros [(q & <- & Hq) Hne]. eauto.
  - intros [Hne (q & Hq & ->)]. eauto.
Qed.

(** X16: every paragraph of the segmentation at blank lines is non-empty,
    equal to its own trim and free of blank lines: the pattern
    [/\n\s*\n/] matches nowhere in it. *)
Theorem splitParagraphs_clean (text p : jsstring) :
  In p (Plain.splitParagraphs text) ->
  p <> [] /\ trim p = p /\ matchesIn Plain.matchBlankLine p = false.
Proof.
  intros H. apply splitParagraphs_In in H as [Hne (q & Hq & ->)].
  split; [exact Hne|]. split; [apply trim_idem|].
  apply noBlank_no_match, noBlank_trim.
  pose proof (@splitFrom_noBlank text 0 [] eq_refl) as F.
  rewrite Forall_forall in F. apply F; [discriminate|lia|exact Hq].
Qed.

Lemma splitParagraphs_clean_witness :
  js "b" <> [] /\ trim (js "b") = js "b"
  /\ matchesIn Plain.matchBlankLine (js "b") = false.
Proof.
  apply (@splitParagraphs_clean
           (js "a" ++ [Char.LF; Char.SP; Char.LF] ++ js " b ")).
  vm_compute. auto.
Defined.

Lemma splitFrom_no_match (matcher : jsstring -> option nat)
    (s piece : jsstring) :
  matchesIn matcher s = false ->
  Plain.splitFrom matcher 0 piece s = [piece ++ s].
Proof.
  revert piece. induction s as [|c r IH]; intros piece H.
  - cbn. now rewrite app_nil_r.
  - cbn [matchesIn] in H. apply orb_false_iff in H as [Hm Hr].
    cbn [Plain.splitFrom]. destruct (matcher (c :: r)); [discriminate|].
    rewrite (IH _ Hr), <- app_assoc. reflexivity.
Qed.

Lemma splitFrom_forallb (matcher : jsstring -> option nat) (q : N -> bool)
    (s : jsstring) (skip : nat) (piece : jsstring) :
  forallb q piece = true -> forallb q s = true ->
  Forall (fun p => forallb q p = true) (Plain.splitFrom matcher skip piece s).
Proof.
  revert skip piece. induction s as [|c r IH]; intros skip piece Hp Hs.
  - repeat constructor. exact Hp.
  - cbn [forallb] in Hs. apply andb_true_iff in Hs as [Hc Hr].
    cbn [Plain.splitFrom]. destruct skip as [|k]; [|auto].
    assert (Hpc : forallb q (piece ++ [c]) = true).
    { rewrite forallb_app, Hp. cbn. now rewrite Hc. }
    destruct (matcher (c :: r)) as [[|k]|]; auto.
Qed.

(** X17: a text without blank line is one paragraph, its trim, unless it
    is whitespace only; and a text of whitespace only, with or without
    blank lines, gives no paragraph. *)
Theorem splitParagraphs_edges (text : jsstring) :
  (matchesIn Plain.matchBlankLine text = false ->
   Plain.splitParagraphs text = if truthy (trim text) then [trim text] else [])
  /\ (forallb Char.isSpace text = true -> Plain.splitParagraphs text = []).
Proof.
  unfold Plain.splitParagraphs, Plain.splitAll. split.
  - intros H. now rewrite (@splitFrom_no_match _ text [] H).
  - intros H.
    pose proof (@splitFrom_forallb Plain.matchBlankLine Char.isSpace
                  text 0 [] eq_refl H) as F.
    induction F as [|p l Hp _ IH]; [reflexivity|].
    cbn [map filter]. now rewrite (trim_all _ Hp).
Qed.

Lemma splitParagraphs_edges_witness :
  Plain.splitParagraphs (js " one line ") = [js "one line"]
  /\ Plain.splitParagraphs [Char.SP; Char.LF; Char.LF; Char.TAB] = [].
Proof.
  split.
  - apply (proj1 (splitParagraphs_edges (js " one line "))). reflexivity.
  - apply (proj2 (splitParagraphs_edges _)). reflexivity.
Defined.
